(** * Asteroid chat: message store, rooms and event handlers

    A shallow embedding of the chat subsystem of the Cosmic Watch server:

    - [models/ChatMessage.js]      the persisted message and its queries,
    - [services/socketService.js]  the socket.io event handlers,
    - [routes/chat.js]             the REST fallback routes.

    Handlers are functions over an explicit state: the table of live
    sockets with their room memberships, and the database.  Every emit
    is recorded as the list of (recipient socket, event) deliveries it
    causes.  A handler is run to completion: no other event is interleaved
    at its [await] points. *)

From Stdlib Require Import ZArith NArith Ascii Sorted.
From stdpp Require Import gmap list strings sorting.

Local Open Scope Z_scope.

(** ** JavaScript strings *)

Module JS.

(** A string is its sequence of UTF-16 code units; [length] is [.length]. *)
Definition jsstring := list N.

Definition js (s : string) : jsstring :=
  N_of_ascii <$> String.list_ascii_of_string s.

(** WhiteSpace and LineTerminator code units, as [String.prototype.trim]
    strips them. *)
Definition is_ws (c : N) : bool :=
  ((9 <=? c) && (c <=? 13) || (c =? 32) || (c =? 160) || (c =? 5760)
   || (8192 <=? c) && (c <=? 8202) || (c =? 8232) || (c =? 8233)
   || (c =? 8239) || (c =? 8287) || (c =? 12288) || (c =? 65279))%N.

Fixpoint trimStart (s : jsstring) : jsstring :=
  match s with
  | c :: s' => if is_ws c then trimStart s' else s
  | [] => []
  end.

Definition trimEnd (s : jsstring) : jsstring := rev (trimStart (rev s)).

Definition trim (s : jsstring) : jsstring := trimEnd (trimStart s).

(** [!x] for a value that is a string or missing ([undefined]). *)
Definition falsy (x : option jsstring) : bool :=
  match x with
  | None => true
  | Some s => bool_decide (s = [])
  end.

(** [x || d] for such a value. *)
Definition or_else (x : option jsstring) (d : jsstring) : jsstring :=
  match x with
  | Some (c :: s) => c :: s
  | _ => d
  end.

Fixpoint startsWith (p s : jsstring) : bool :=
  match p, s with
  | [], _ => true
  | a :: p', b :: s' => (a =? b)%N && startsWith p' s'
  | _ :: _, [] => false
  end.

End JS.
Export JS.

(** ** The message store ([models/ChatMessage.js]) *)

Module Store.

(** ObjectIds; [toString] is injective on them, so the handlers' comparisons
    of [x.toString()] are comparisons of the ids. *)
Abbreviation oid := N.

Inductive messageType := text | system | announcement.

Global Instance messageType_eq_dec : EqDecision messageType.
Proof. solve_decision. Defined.

Record Reaction := mkReaction {
  r_emoji : option jsstring;
  r_userId : oid;
  r_createdAt : Z
}.

(** A [ChatMessage] document; its [_id] is the key it is stored under. *)
Record ChatMessage := mkChatMessage {
  asteroidId : jsstring;
  neoReferenceId : jsstring;
  asteroidName : jsstring;
  userId : oid;
  username : jsstring;
  userAvatar : option jsstring;
  message : jsstring;
  msgType : messageType;
  replyTo : option oid;
  reactions : list Reaction;
  edited : bool;
  editedAt : option Z;
  deleted : bool;
  deletedAt : option Z;
  createdAt : Z;
  updatedAt : Z
}.

Definition set_reactions (rs : list Reaction) (m : ChatMessage) : ChatMessage :=
  mkChatMessage (asteroidId m) (neoReferenceId m) (asteroidName m) (userId m)
    (username m) (userAvatar m) (message m) (msgType m) (replyTo m) rs
    (edited m) (editedAt m) (deleted m) (deletedAt m) (createdAt m) (updatedAt m).

Definition set_deleted (t : Z) (m : ChatMessage) : ChatMessage :=
  mkChatMessage (asteroidId m) (neoReferenceId m) (asteroidName m) (userId m)
    (username m) (userAvatar m) (message m) (msgType m) (replyTo m) (reactions m)
    (edited m) (editedAt m) true (Some t) (createdAt m) (updatedAt m).

Definition set_updatedAt (t : Z) (m : ChatMessage) : ChatMessage :=
  mkChatMessage (asteroidId m) (neoReferenceId m) (asteroidName m) (userId m)
    (username m) (userAvatar m) (message m) (msgType m) (replyTo m) (reactions m)
    (edited m) (editedAt m) (deleted m) (deletedAt m) (createdAt m) t.

(** The part of an [Asteroid] document the chat routes read. *)
Record Asteroid := mkAsteroid {
  a_neoReferenceId : jsstring;
  a_name : jsstring
}.

(** The database: the two collections, and the schedule of I/O faults.
    [faults] tells for each coming attempt to reach the database whether it
    fails with a transient I/O error ([true]); once the schedule is used up
    every attempt is served. *)
Record Db := mkDb {
  messages : gmap oid ChatMessage;
  asteroids : gmap jsstring Asteroid;
  faults : list bool
}.

(** What an awaited database call yields: a value, or a thrown error. *)
Inductive result (A : Type) := Ok (a : A) | Thrown.
Arguments Ok {A} a.
Arguments Thrown {A}.

(** One awaited call, and whether it throws.  The connection is opened by
    [mongoose.connect(process.env.MONGODB_URI)] with no options
    ([config/db.js]), so the driver's retryable reads and writes are on: an
    attempt that fails with a transient I/O error is made once more, and the
    awaited call throws only when that second attempt fails too.  A served
    call consumes one entry of the schedule, a retried one two. *)
Definition roundtrip (db : Db) : bool * Db :=
  match faults db with
  | [] => (false, db)
  | false :: fs => (false, mkDb (messages db) (asteroids db) fs)
  | true :: [] => (false, mkDb (messages db) (asteroids db) [])
  | true :: f :: fs => (f, mkDb (messages db) (asteroids db) fs)
  end.

Definition findById (id : oid) (db : Db) : result (option ChatMessage) * Db :=
  let '(bad, db') := roundtrip db in
  if bad then (Thrown, db') else (Ok (messages db' !! id), db').

(** A string of 24 hexadecimal digits; such a string casts to an ObjectId. *)
Definition is_hex (c : N) : bool :=
  ((48 <=? c) && (c <=? 57) || (65 <=? c) && (c <=? 70)
   || (97 <=? c) && (c <=? 102))%N.

Definition hex24 (s : jsstring) : bool :=
  bool_decide (length s = 24%nat) && forallb is_hex s.

(** [Asteroid.findById(id)] for an [id] that casts to an ObjectId.  For a
    string that does not cast, the cast throws before anything is sent to
    the database; that path is not modelled, and what is proved of a route
    through this lookup is proved for ids that cast. *)
Definition Asteroid_findById (id : jsstring) (db : Db) : result (option Asteroid) * Db :=
  let '(bad, db') := roundtrip db in
  if bad then (Thrown, db') else (Ok (asteroids db' !! id), db').

(** [doc.save()] of a document obtained by [findById]: writes it back under
    its id and stamps [updatedAt] (schema option [timestamps]). *)
Definition save (now : Z) (id : oid) (m : ChatMessage) (db : Db) : result ChatMessage * Db :=
  let '(bad, db') := roundtrip db in
  if bad then (Thrown, db')
  else let m' := set_updatedAt now m in
       (Ok m', mkDb (<[id := m']> (messages db')) (asteroids db') (faults db')).

(** [new ChatMessage({...}).save()]: inserts under the generated id; an id
    already in use is a duplicate-key error. *)
Definition save_new (id : oid) (m : ChatMessage) (db : Db) : result ChatMessage * Db :=
  let '(bad, db') := roundtrip db in
  if bad then (Thrown, db')
  else match messages db' !! id with
       | Some _ => (Thrown, db')
       | None => (Ok m, mkDb (<[id := m]> (messages db')) (asteroids db') (faults db'))
       end.

(** *** Queries *)

Definition stored := (oid * ChatMessage)%type.

(** The filter [{ asteroidId, deleted: false, messageType: { $ne: 'system' } }]
    with the optional [createdAt: { $lt: beforeDate }]. *)
Definition matches (aid : jsstring) (beforeDate : option Z) (d : stored) : bool :=
  bool_decide (asteroidId d.2 = aid)
  && negb (deleted d.2)
  && negb (bool_decide (msgType d.2 = system))
  && match beforeDate with
     | Some t => createdAt d.2 <? t
     | None => true
     end.

(** [.sort({ createdAt: -1 })]: newest first. *)
Fixpoint insert_desc (d : stored) (l : list stored) : list stored :=
  match l with
  | [] => [d]
  | e :: l' => if createdAt e.2 <=? createdAt d.2 then d :: l else e :: insert_desc d l'
  end.

Definition sort_desc (l : list stored) : list stored :=
  foldr insert_desc [] l.

(** [.limit(n)]: the first [n] documents; the driver reads [0] as no limit
    and a negative [n] as [-n]. *)
Definition limit (n : Z) (l : list stored) : list stored :=
  if n =? 0 then l else take (Z.abs_nat n) l.

(** [find(query).sort({ createdAt: -1 }).limit(n)] on the collection. *)
Definition find_sorted (aid : jsstring) (n : Z) (beforeDate : option Z)
    (ms : gmap oid ChatMessage) : list stored :=
  limit n (sort_desc (List.filter (matches aid beforeDate) (map_to_list ms))).

(** The same chain as an awaited query. *)
Definition find_query (aid : jsstring) (n : Z) (beforeDate : option Z)
    (db : Db) : result (list stored) * Db :=
  let '(bad, db') := roundtrip db in
  if bad then (Thrown, db')
  else (Ok (find_sorted aid n beforeDate (messages db')), db').

(** [ChatMessage.getChatHistory(asteroidId, limit = 50, beforeDate = null)]. *)
Definition getChatHistory (aid : jsstring) (lim : option Z) (beforeDate : option Z)
    (db : Db) : result (list stored) * Db :=
  find_query aid (default 50 lim) beforeDate db.

(** [ChatMessage.getMessageCount(asteroidId)]. *)
Definition getMessageCount (aid : jsstring) (db : Db) : result nat * Db :=
  let '(bad, db') := roundtrip db in
  if bad then (Thrown, db')
  else (Ok (length (List.filter (matches aid None) (map_to_list (messages db')))), db').

(** *** Reactions *)

(** The two statements both channels run on the loaded document:
    [message.reactions = message.reactions.filter(
       r => r.userId.toString() !== uid.toString())]
    and [message.reactions.push({ emoji, userId: uid, createdAt: new Date() })].
    A missing [emoji] is stored as a reaction without one. *)
Definition setReaction (uid : oid) (emoji : option jsstring) (now : Z)
    (rs : list Reaction) : list Reaction :=
  List.filter (λ r, negb (bool_decide (r_userId r = uid))) rs
  ++ [mkReaction emoji uid now].

End Store.
Export Store.

(** ** Sockets, rooms and emits ([services/socketService.js]) *)

Module Rooms.

Definition sid := jsstring.

(** What the authentication middleware resolved from the handshake token. *)
Record User := mkUser {
  u_id : oid;
  u_username : jsstring;
  u_avatar : option jsstring
}.

(** The per-socket fields the handlers read and write, and [socket.rooms]. *)
Record Socket := mkSocket {
  s_userId : option oid;
  s_username : jsstring;
  s_userAvatar : option jsstring;
  s_rooms : gset jsstring;
  s_currentAsteroid : option jsstring;
  s_currentRoom : option jsstring
}.

Abbreviation sockets := (gmap sid Socket).

(** [io.sockets.adapter.rooms.get(room)]: the sockets whose [rooms] hold
    [room]; the empty set stands for the missing entry. *)
Definition members (ss : sockets) (room : jsstring) : gset sid :=
  dom (filter (λ kv, room ∈ s_rooms kv.2) ss).

Inductive event :=
| chatHistory (msgs : list stored)
| userJoined (name text : jsstring)
| userLeft (name text : jsstring)
| activeUsers (count : nat)
| newMessage (id : oid) (m : ChatMessage)
| userTyping (name : jsstring) (aid : option jsstring)
| userStoppedTyping (name : jsstring) (aid : option jsstring)
| reactionUpdated (messageId : oid) (rs : list Reaction)
| messageDeleted (messageId : oid) (deletedBy : jsstring)
| chatError (text : jsstring).

Definition delivery := (sid * event)%type.

(** [socket.emit(ev)] *)
Definition socket_emit (s : sid) (ev : event) : list delivery := [(s, ev)].

(** [socket.to(room).emit(ev)]: everyone in [room] but the socket itself. *)
Definition socket_to (ss : sockets) (s : sid) (room : jsstring) (ev : event)
    : list delivery :=
  (λ t, (t, ev)) <$> elements (members ss room ∖ {[s]}).

(** [io.to(room).emit(ev)]: everyone in [room]. *)
Definition io_to (ss : sockets) (room : jsstring) (ev : event) : list delivery :=
  (λ t, (t, ev)) <$> elements (members ss room).

(** [`asteroid:${asteroidId}`] *)
Definition room_of (aid : jsstring) : jsstring := js "asteroid:" ++ aid.

(** The test of the [forEach] in [joinAsteroid]: the room is left. *)
Definition is_left (roomName room : jsstring) : bool :=
  startsWith (js "asteroid:") room && negb (bool_decide (room = roomName)).

End Rooms.
Export Rooms.

Module Socket.

(** The clock and the id generator, as read by one handler run, and the
    text of the error a store call of that run throws when one does
    ([error.message]). *)
Record Env := mkEnv {
  now : Z;
  new_id : oid;
  error_message : jsstring
}.

Record sendData := mkSendData {
  d_asteroidId : option jsstring;
  d_neoReferenceId : option jsstring;
  d_asteroidName : option jsstring;
  d_message : option jsstring;
  d_replyTo : option oid
}.

(** A truthy string value, if the field holds one. *)
Definition truthy (x : option jsstring) : option jsstring :=
  if falsy x then None else x.

(** [io.on('connection')] after the [io.use] middleware: a socket starts in
    the room named by its own id.  Socket ids are fresh; a handshake under
    an id in use does not occur and changes nothing. *)
Definition connection (s : sid) (who : option User) (ss : sockets) : sockets :=
  match ss !! s with
  | Some _ => ss
  | None =>
      <[s := match who with
             | Some u => mkSocket (Some (u_id u)) (u_username u) (u_avatar u) {[s]} None None
             | None => mkSocket None (js "Guest") None {[s]} None None
             end]> ss
  end.

(** [socket.on('joinAsteroid')]; [aid] is the [asteroidId] of the event.
    A socket that is gone handles no event. *)
Definition joinAsteroid (s : sid) (aid : jsstring) (ss : sockets) (db : Db)
    : sockets * Db * list delivery :=
  match ss !! s with
  | None => (ss, db, [])
  | Some so =>
      let roomName := room_of aid in
      let kept := filter (λ room, ¬ is_left roomName room) (s_rooms so) in
      let ss' := <[s := mkSocket (s_userId so) (s_username so) (s_userAvatar so)
                          ({[roomName]} ∪ kept) (Some aid) (Some roomName)]> ss in
      let '(r, db') := getChatHistory aid (Some 50) None db in
      let history := match r with
                     | Ok h => socket_emit s (chatHistory (reverse h))
                     | Thrown => socket_emit s (chatHistory [])
                     end in
      (ss', db',
       history
       ++ socket_to ss' s roomName
            (userJoined (s_username so) (s_username so ++ js " joined the discussion"))
       ++ io_to ss' roomName (activeUsers (size (members ss' roomName))))
  end.

Definition leaveAsteroid (s : sid) (ss : sockets) : sockets * list delivery :=
  match ss !! s with
  | None => (ss, [])
  | Some so =>
      match s_currentRoom so with
      | None => (ss, [])
      | Some room =>
          let out :=
            socket_to ss s room
              (userLeft (s_username so) (s_username so ++ js " left the discussion"))
            ++ io_to ss room (activeUsers (size (members ss room))) in
          (<[s := mkSocket (s_userId so) (s_username so) (s_userAvatar so)
                    (s_rooms so ∖ {[room]}) None None]> ss, out)
      end
  end.

Definition sendMessage (e : Env) (s : sid) (d : sendData) (ss : sockets) (db : Db)
    : Db * list delivery :=
  match ss !! s with
  | None => (db, [])
  | Some so =>
      match truthy (d_asteroidId d) with
      | None => (db, socket_emit s (chatError (js "Asteroid ID is missing")))
      | Some aid =>
      match truthy (d_neoReferenceId d) with
      | None => (db, socket_emit s (chatError (js "Neo Reference ID is missing")))
      | Some neo =>
      match truthy (d_message d) with
      | None => (db, socket_emit s (chatError (js "Message cannot be empty")))
      | Some msg =>
      if bool_decide (length (trim msg) = 0%nat) then
        (db, socket_emit s (chatError (js "Message cannot be empty")))
      else if bool_decide (2000 < length msg)%nat then
        (db, socket_emit s (chatError (js "Message too long (max 2000 characters)")))
      else
      match s_userId so with
      | None => (db, socket_emit s (chatError (js "Please login to send messages")))
      | Some uid =>
          let chatMessage :=
            mkChatMessage aid neo (or_else (d_asteroidName d) (js "Unknown"))
              uid (s_username so) (s_userAvatar so) (trim msg) text (d_replyTo d)
              [] false None false None (now e) (now e) in
          match save_new (new_id e) chatMessage db with
          | (Ok m, db') => (db', io_to ss (room_of aid) (newMessage (new_id e) m))
          | (Thrown, db') =>
              (db', socket_emit s
                      (chatError (js "Failed to send message: " ++ error_message e)))
          end
      end
      end
      end
      end
  end.

Definition typing (s : sid) (ss : sockets) : list delivery :=
  match ss !! s with
  | None => []
  | Some so =>
      match s_currentRoom so, s_userId so with
      | Some room, Some _ =>
          socket_to ss s room (userTyping (s_username so) (s_currentAsteroid so))
      | _, _ => []
      end
  end.

Definition stopTyping (s : sid) (ss : sockets) : list delivery :=
  match ss !! s with
  | None => []
  | Some so =>
      match s_currentRoom so, s_userId so with
      | Some room, Some _ =>
          socket_to ss s room (userStoppedTyping (s_username so) (s_currentAsteroid so))
      | _, _ => []
      end
  end.

Definition addReaction (e : Env) (s : sid) (messageId : oid) (emoji : option jsstring)
    (ss : sockets) (db : Db) : Db * list delivery :=
  match ss !! s with
  | None => (db, [])
  | Some so =>
      match s_userId so with
      | None => (db, socket_emit s (chatError (js "Please login to add reactions")))
      | Some uid =>
          match findById messageId db with
          | (Thrown, db1) => (db1, socket_emit s (chatError (js "Failed to add reaction")))
          | (Ok None, db1) => (db1, socket_emit s (chatError (js "Message not found")))
          | (Ok (Some m), db1) =>
              let m' := set_reactions (setReaction uid emoji (now e) (reactions m)) m in
              match save (now e) messageId m' db1 with
              | (Thrown, db2) => (db2, socket_emit s (chatError (js "Failed to add reaction")))
              | (Ok m'', db2) =>
                  (db2, io_to ss (room_of (asteroidId m''))
                          (reactionUpdated messageId (reactions m'')))
              end
          end
      end
  end.

Definition deleteMessage (e : Env) (s : sid) (messageId : oid)
    (ss : sockets) (db : Db) : Db * list delivery :=
  match ss !! s with
  | None => (db, [])
  | Some so =>
      match s_userId so with
      | None => (db, socket_emit s (chatError (js "Please login to delete messages")))
      | Some uid =>
          match findById messageId db with
          | (Thrown, db1) => (db1, socket_emit s (chatError (js "Failed to delete message")))
          | (Ok None, db1) => (db1, socket_emit s (chatError (js "Message not found")))
          | (Ok (Some m), db1) =>
              if negb (bool_decide (userId m = uid)) then
                (db1, socket_emit s (chatError (js "You can only delete your own messages")))
              else
                match save (now e) messageId (set_deleted (now e) m) db1 with
                | (Thrown, db2) =>
                    (db2, socket_emit s (chatError (js "Failed to delete message")))
                | (Ok m', db2) =>
                    (db2, io_to ss (room_of (asteroidId m'))
                            (messageDeleted messageId (s_username so)))
                end
          end
      end
  end.

(** [socket.on('disconnect')]: socket.io has taken the socket out of all
    its rooms when the listener runs; the listener still reads the
    socket's own [currentRoom]. *)
Definition disconnect (s : sid) (ss : sockets) : sockets * list delivery :=
  match ss !! s with
  | None => (ss, [])
  | Some so =>
      let ss' := delete s ss in
      match s_currentRoom so with
      | None => (ss', [])
      | Some room =>
          (ss',
           socket_to ss' s room
             (userLeft (s_username so) (s_username so ++ js " left the discussion"))
           ++ io_to ss' room (activeUsers (size (members ss' room))))
      end
  end.

End Socket.
Export Socket.

(** ** The REST fallback ([routes/chat.js])

    The bodies of the routes.  The routes that write are guarded by the
    [auth] middleware; their bodies run with the user it attached to the
    request.  [populate], which only decorates the returned documents, is
    not modelled beyond its round trip after a [save]. *)

Module Rest.

Inductive payload :=
| failure (text : jsstring)
| messageList (count : nat) (msgs : list stored)
| created (id : oid) (m : ChatMessage)
| succeeded (text : jsstring)
| counted (n : nat)
| reactionList (rs : list Reaction).

Record response := mkResponse {
  status : nat;
  body : payload
}.

(** [GET /:asteroidId/messages]; [lim] is [parseInt(limit)] for a numeric
    query parameter, [before] the time [new Date(before)] denotes. *)
Definition get_messages (aid : jsstring) (lim : option Z) (before : option Z)
    (db : Db) : Db * response :=
  match find_query aid (default 50 lim) before db with
  | (Ok msgs, db') => (db', mkResponse 200 (messageList (length msgs) (reverse msgs)))
  | (Thrown, db') => (db', mkResponse 500 (failure (js "Failed to fetch messages")))
  end.

(** [POST /:asteroidId/messages] *)
Definition post_message (e : Env) (u : User) (aid : jsstring)
    (msg : option jsstring) (reply : option oid) (db : Db) : Db * response :=
  match truthy msg with
  | None => (db, mkResponse 400 (failure (js "Message cannot be empty")))
  | Some text_ =>
      if bool_decide (length (trim text_) = 0%nat) then
        (db, mkResponse 400 (failure (js "Message cannot be empty")))
      else if bool_decide (2000 < length text_)%nat then
        (db, mkResponse 400 (failure (js "Message too long (max 2000 characters)")))
      else
        match Asteroid_findById aid db with
        | (Thrown, db1) => (db1, mkResponse 500 (failure (js "Failed to send message")))
        | (Ok None, db1) => (db1, mkResponse 404 (failure (js "Asteroid not found")))
        | (Ok (Some a), db1) =>
            let chatMessage :=
              mkChatMessage aid (a_neoReferenceId a) (a_name a)
                (u_id u) (u_username u) (u_avatar u) (trim text_) text reply
                [] false None false None (now e) (now e) in
            match save_new (new_id e) chatMessage db1 with
            | (Thrown, db2) => (db2, mkResponse 500 (failure (js "Failed to send message")))
            | (Ok m, db2) =>
                let '(bad, db3) := roundtrip db2 in
                if bad then (db3, mkResponse 500 (failure (js "Failed to send message")))
                else (db3, mkResponse 201 (created (new_id e) m))
            end
        end
  end.

(** [DELETE /messages/:messageId] *)
Definition delete_message (e : Env) (u : User) (messageId : oid) (db : Db)
    : Db * response :=
  match findById messageId db with
  | (Thrown, db1) => (db1, mkResponse 500 (failure (js "Failed to delete message")))
  | (Ok None, db1) => (db1, mkResponse 404 (failure (js "Message not found")))
  | (Ok (Some m), db1) =>
      if negb (bool_decide (userId m = u_id u)) then
        (db1, mkResponse 403 (failure (js "You can only delete your own messages")))
      else
        match save (now e) messageId (set_deleted (now e) m) db1 with
        | (Thrown, db2) => (db2, mkResponse 500 (failure (js "Failed to delete message")))
        | (Ok _, db2) => (db2, mkResponse 200 (succeeded (js "Message deleted successfully")))
        end
  end.

(** [GET /:asteroidId/count] *)
Definition get_count (aid : jsstring) (db : Db) : Db * response :=
  match getMessageCount aid db with
  | (Ok n, db') => (db', mkResponse 200 (counted n))
  | (Thrown, db') => (db', mkResponse 500 (failure (js "Failed to fetch message count")))
  end.

(** [POST /messages/:messageId/reactions] *)
Definition post_reaction (e : Env) (u : User) (messageId : oid)
    (emoji : option jsstring) (db : Db) : Db * response :=
  if falsy emoji then (db, mkResponse 400 (failure (js "Emoji is required")))
  else
    match findById messageId db with
    | (Thrown, db1) => (db1, mkResponse 500 (failure (js "Failed to add reaction")))
    | (Ok None, db1) => (db1, mkResponse 404 (failure (js "Message not found")))
    | (Ok (Some m), db1) =>
        let m' := set_reactions (setReaction (u_id u) emoji (now e) (reactions m)) m in
        match save (now e) messageId m' db1 with
        | (Thrown, db2) => (db2, mkResponse 500 (failure (js "Failed to add reaction")))
        | (Ok m'', db2) => (db2, mkResponse 200 (reactionList (reactions m'')))
        end
    end.

End Rest.
Export Rest.

(** ** The server as a state machine *)

Module Server.

Record State := mkState {
  socks : sockets;
  store : Db
}.

(** What reaches the server: a handshake, a socket event, a REST request. *)
Inductive input :=
| Connect (s : sid) (who : option User)
| JoinAsteroid (s : sid) (aid : jsstring)
| LeaveAsteroid (s : sid)
| SendMessage (s : sid) (d : sendData)
| Typing (s : sid)
| StopTyping (s : sid)
| AddReaction (s : sid) (messageId : oid) (emoji : option jsstring)
| DeleteMessage (s : sid) (messageId : oid)
| Disconnect (s : sid)
| GetMessages (aid : jsstring) (lim before : option Z)
| PostMessage (u : User) (aid : jsstring) (msg : option jsstring) (reply : option oid)
| DeleteRequest (u : User) (messageId : oid)
| GetCount (aid : jsstring)
| PostReaction (u : User) (messageId : oid) (emoji : option jsstring).

(** What one step puts out: the socket deliveries and the REST response. *)
Record output := mkOutput {
  emitted : list delivery;
  replied : option response
}.

Definition step (e : Env) (i : input) (st : State) : State * output :=
  match i with
  | Connect s who =>
      (mkState (connection s who (socks st)) (store st), mkOutput [] None)
  | JoinAsteroid s aid =>
      let '(ss, db, out) := joinAsteroid s aid (socks st) (store st) in
      (mkState ss db, mkOutput out None)
  | LeaveAsteroid s =>
      let '(ss, out) := leaveAsteroid s (socks st) in
      (mkState ss (store st), mkOutput out None)
  | SendMessage s d =>
      let '(db, out) := sendMessage e s d (socks st) (store st) in
      (mkState (socks st) db, mkOutput out None)
  | Typing s => (st, mkOutput (typing s (socks st)) None)
  | StopTyping s => (st, mkOutput (stopTyping s (socks st)) None)
  | AddReaction s messageId emoji =>
      let '(db, out) := addReaction e s messageId emoji (socks st) (store st) in
      (mkState (socks st) db, mkOutput out None)
  | DeleteMessage s messageId =>
      let '(db, out) := deleteMessage e s messageId (socks st) (store st) in
      (mkState (socks st) db, mkOutput out None)
  | Disconnect s =>
      let '(ss, out) := disconnect s (socks st) in
      (mkState ss (store st), mkOutput out None)
  | GetMessages aid lim before =>
      let '(db, r) := get_messages aid lim before (store st) in
      (mkState (socks st) db, mkOutput [] (Some r))
  | PostMessage u aid msg reply =>
      let '(db, r) := post_message e u aid msg reply (store st) in
      (mkState (socks st) db, mkOutput [] (Some r))
  | DeleteRequest u messageId =>
      let '(db, r) := delete_message e u messageId (store st) in
      (mkState (socks st) db, mkOutput [] (Some r))
  | GetCount aid =>
      let '(db, r) := get_count aid (store st) in
      (mkState (socks st) db, mkOutput [] (Some r))
  | PostReaction u messageId emoji =>
      let '(db, r) := post_reaction e u messageId emoji (store st) in
      (mkState (socks st) db, mkOutput [] (Some r))
  end.

(** A run: the inputs in order of arrival, each with the clock and id it
    is handled under; the outputs are collected in the same order. *)
Fixpoint run (tr : list (Env * input)) (st : State) : State * list output :=
  match tr with
  | [] => (st, [])
  | (e, i) :: tr' =>
      let '(st1, o) := step e i st in
      let '(st2, os) := run tr' st1 in
      (st2, o :: os)
  end.

Definition boot (db : Db) : State := mkState ∅ db.

End Server.
Export Server.

(** ** Properties stated about the model *)

Module Props.

(** The reactions of one user in a reaction list. *)
Definition by_user (uid : oid) (rs : list Reaction) : list Reaction :=
  List.filter (λ r, bool_decide (r_userId r = uid)) rs.

Definition one_each (rs : list Reaction) : Prop :=
  ∀ uid, (length (by_user uid rs) ≤ 1)%nat.

Definition reactions_ok (db : Db) : Prop :=
  ∀ id m, messages db !! id = Some m → one_each (reactions m).

(** No attempt of the schedule fails. *)
Definition healthy (db : Db) : Prop := Forall (λ f, f = false) (faults db).


(** How the handlers rewrite a stored document ... *)
Inductive doc_step (m : ChatMessage) : ChatMessage → Prop :=
| ds_react uid emoji t t' :
    doc_step m (set_updatedAt t' (set_reactions (setReaction uid emoji t (reactions m)) m))
| ds_delete t t' :
    doc_step m (set_updatedAt t' (set_deleted t m)).

(** ... and the collection. *)
Inductive msgs_step (ms : gmap oid ChatMessage) : gmap oid ChatMessage → Prop :=
| ms_same : msgs_step ms ms
| ms_new id m :
    ms !! id = None → reactions m = [] → deleted m = false →
    msgs_step ms (<[id := m]> ms)
| ms_upd id m m' :
    ms !! id = Some m → doc_step m m' → msgs_step ms (<[id := m']> ms).

(** The input [i] is a reaction of user [uid] to message [mid]: sent over a
    socket authenticated as [uid], or posted by [uid] with an emoji the
    route accepts. *)
Definition reaction_by (ss : sockets) (uid mid : oid) (emoji : option jsstring)
    (i : input) : Prop :=
  (∃ s so, i = AddReaction s mid emoji ∧ ss !! s = Some so ∧ s_userId so = Some uid)
  ∨ (∃ u, i = PostReaction u mid emoji ∧ u_id u = uid ∧ falsy emoji = false).

(** The body [b] of a send passes the handlers' checks. *)
Definition body_ok (msg : option jsstring) (b : jsstring) : Prop :=
  msg = Some b ∧ trim b ≠ [] ∧ (length b ≤ 2000)%nat.

(** Ascending creation times: every message is no older than those before
    it in the list. *)
Definition ascending (l : list stored) : Prop :=
  StronglySorted (λ a b, createdAt a.2 ≤ createdAt b.2) l.

Definition descending (l : list stored) : Prop :=
  StronglySorted (λ a b, createdAt b.2 ≤ createdAt a.2) l.

(** The output carries the history [l]: as a [chatHistory] event, or as the
    message list of a REST response. *)
Definition delivered_history (o : output) (l : list stored) : Prop :=
  (∃ s, (s, chatHistory l) ∈ emitted o)
  ∨ (∃ c n, replied o = Some (mkResponse c (messageList n l))).

(** The topic and the cursor of a history query. *)
Definition topic_of (i : input) : option jsstring :=
  match i with
  | JoinAsteroid _ aid | GetMessages aid _ _ => Some aid
  | _ => None
  end.

Definition cursor_of (i : input) : option Z :=
  match i with
  | GetMessages _ _ before => before
  | _ => None
  end.

(** A socket is in at most one asteroid room, and its [currentRoom] is one
    it is in. *)
Definition single_room (ss : sockets) : Prop :=
  ∀ s so, ss !! s = Some so →
    (∀ r1 r2, r1 ∈ s_rooms so → r2 ∈ s_rooms so →
       startsWith (js "asteroid:") r1 → startsWith (js "asteroid:") r2 → r1 = r2)
    ∧ (∀ r, s_currentRoom so = Some r →
         r ∈ s_rooms so ∧ startsWith (js "asteroid:") r).

End Props.
Export Props.

(** ** A scenario

    Two authenticated users and a guest around the topic ["2025-AB"]. *)

Module Scenario.

Definition alice : User := mkUser 1 (js "alice") None.
Definition bob : User := mkUser 2 (js "bob") None.

Definition sA : sid := js "sA".
Definition sB : sid := js "sB".
Definition sG : sid := js "sG".

Definition topic : jsstring := js "2025-AB".
Definition other_topic : jsstring := js "2031-XY".

Definition thumbs_up : jsstring := [55357; 56397]%N.
Definition heart : jsstring := [10084]%N.

(** A message of [alice] in [topic], created at time [t]. *)
Definition hello (t : Z) : ChatMessage :=
  mkChatMessage topic (js "3542519") (js "(2025 AB)") 1 (js "alice") None
    (js "hello") text None [] false None false None t t.

Definition empty_db : Db := mkDb ∅ ∅ [].

(** A store holding [hello 100] under the id 7. *)
Definition one_message : Db := mkDb {[ 7%N := hello 100 ]} ∅ [].



(** [n] messages in [topic], with ids and creation times [1 .. n]. *)
Fixpoint many (n : nat) : gmap oid ChatMessage :=
  match n with
  | O => ∅
  | S k => <[N.of_nat n := hello (Z.of_nat n)]> (many k)
  end.

Definition crowded : Db := mkDb (many 51) ∅ [].

(** Three messages of [topic]; the middle one has been deleted. *)
Definition archive : Db :=
  mkDb (<[9%N := hello 130]>
          (<[8%N := set_deleted 150 (hello 120)]> {[ 7%N := hello 100 ]})) ∅ [].

Definition at_ (t : Z) (id : oid) : Env := mkEnv t id (js "connection closed").

(** Bob's socket once it has joined [topic]. *)
Definition bob_in_topic : Socket :=
  mkSocket (Some 2%N) (js "bob") None {[ sB; room_of topic ]}
    (Some topic) (Some (room_of topic)).

(** Alice's socket once it has joined [topic]. *)
Definition alice_in_topic : Socket :=
  mkSocket (Some 1%N) (js "alice") None {[ sA; room_of topic ]}
    (Some topic) (Some (room_of topic)).

(** Alice and Bob are connected and both in the room of [topic]. *)
Definition both_joined : list (Env * input) :=
  [(at_ 1 100, Connect sA (Some alice));
   (at_ 2 101, Connect sB (Some bob));
   (at_ 3 102, JoinAsteroid sA topic);
   (at_ 4 103, JoinAsteroid sB topic)].

(** A guest and Bob are connected and both in the room of [topic]. *)
Definition guest_and_bob : list (Env * input) :=
  [(at_ 1 100, Connect sG None);
   (at_ 2 101, Connect sB (Some bob));
   (at_ 3 102, JoinAsteroid sG topic);
   (at_ 4 103, JoinAsteroid sB topic)].

End Scenario.

(** ** What the handlers show beyond the claims *)

Module Observations.

(** The socket an input comes from. *)
Definition initiator (i : input) : option sid :=
  match i with
  | Connect s _ | JoinAsteroid s _ | LeaveAsteroid s | SendMessage s _
  | Typing s | StopTyping s | AddReaction s _ _ | DeleteMessage s _
  | Disconnect s => Some s
  | _ => None
  end.

(** The events a socket without a user id can cause. *)
Definition guest_event (ev : event) : Prop :=
  match ev with
  | chatHistory _ | userJoined _ _ | userLeft _ _ | activeUsers _ | chatError _ => True
  | _ => False
  end.

(** The value [getMessageCount] computes on a collection. *)
Definition count_of (aid : jsstring) (ms : gmap oid ChatMessage) : nat :=
  length (List.filter (matches aid None) (map_to_list ms)).

(** Whether a document is one [getMessageCount] counts for [aid]. *)
Definition counts_for (aid : jsstring) (m : ChatMessage) : nat :=
  if matches aid None (0%N, m) then 1%nat else 0%nat.

(** A stored body as the handlers write it: trimmed, not empty, at most 2000
    code units. *)
Definition body_valid (b : jsstring) : Prop :=
  trim b = b ∧ b ≠ [] ∧ (length b ≤ 2000)%nat.

Definition bodies_ok (ms : gmap oid ChatMessage) : Prop :=
  ∀ id m, ms !! id = Some m → body_valid (message m).

(** Everything of a document but its reactions, its deletion mark and
    [updatedAt]. *)
Definition same_content (m m' : ChatMessage) : Prop :=
  asteroidId m' = asteroidId m ∧ neoReferenceId m' = neoReferenceId m
  ∧ asteroidName m' = asteroidName m ∧ userId m' = userId m
  ∧ username m' = username m ∧ userAvatar m' = userAvatar m
  ∧ message m' = message m ∧ msgType m' = msgType m ∧ replyTo m' = replyTo m
  ∧ edited m' = edited m ∧ editedAt m' = editedAt m ∧ createdAt m' = createdAt m.

(** What one handler run, under [e], can do to the collection: nothing,
    insert one fresh text message with a valid body, or rewrite the
    reactions or the deletion mark of one document. *)
Inductive write (e : Env) (ms : gmap oid ChatMessage) : gmap oid ChatMessage → Prop :=
| w_none : write e ms ms
| w_new m :
    ms !! new_id e = None → body_valid (message m) → msgType m = text →
    reactions m = [] → deleted m = false → createdAt m = now e →
    write e ms (<[new_id e := m]> ms)
| w_upd id m m' :
    ms !! id = Some m → doc_step m m' → write e ms (<[id := m']> ms).

(** [currentRoom] and [currentAsteroid] of a socket go together. *)
Definition current_ok (so : Socket) : Prop :=
  match s_currentRoom so with
  | Some r => ∃ aid, s_currentAsteroid so = Some aid ∧ r = room_of aid
  | None => s_currentAsteroid so = None
  end.

End Observations.
Export Observations.

(** ** The [formattedTime] virtual ([models/ChatMessage.js]) *)

Module Display.

(** The text of [formattedTime], by its shape: ['Just now'], [`${n}m ago`],
    [`${n}h ago`], [`${n}d ago`], or the locale's date of the creation time. *)
Inductive formatted :=
| JustNow
| MinutesAgo (n : Z)
| HoursAgo (n : Z)
| DaysAgo (n : Z)
| LocaleDate (t : Z).

(** [now] is [new Date()], [created] the document's [createdAt]; times are
    integer milliseconds, on which [Math.floor(d / k)] is the floored
    quotient [d / k]. *)
Definition formattedTime (now : Z) (created : option Z) : formatted :=
  match created with
  | None => JustNow
  | Some messageDate =>
      let diffMs := now - messageDate in
      let diffMins := diffMs / 60000 in
      let diffHours := diffMs / 3600000 in
      let diffDays := diffMs / 86400000 in
      if diffMins <? 1 then JustNow
      else if diffMins <? 60 then MinutesAgo diffMins
      else if diffHours <? 24 then HoursAgo diffHours
      else if diffDays <? 7 then DaysAgo diffDays
      else LocaleDate messageDate
  end.

End Display.
Export Display.

(** ** The handshake middleware ([io.use] in [services/socketService.js]) *)

Module Handshake.

Record handshake := mkHandshake {
  h_auth_token : option jsstring;
  h_query_token : option jsstring
}.

(** The fields of a [User] document the middleware selects. *)
Record UserDoc := mkUserDoc {
  ud_username : jsstring;
  ud_avatar : option jsstring
}.

(** [socket.handshake.auth.token || socket.handshake.query.token] *)
Definition token_of (h : handshake) : option jsstring :=
  match truthy (h_auth_token h) with
  | Some t => Some t
  | None => h_query_token h
  end.

(** The middleware.  [verify] stands for [jwt.verify] under the server's
    secret, giving the [id] of the decoded payload or nothing when it
    throws; [users] is the user collection and [fault] tells whether the
    lookup in it throws.  The result is the identity put on the socket:
    a user, or nothing for ['Guest']. *)
Definition io_use (verify : jsstring → option oid) (users : gmap oid UserDoc)
    (fault : bool) (h : handshake) : option User :=
  match truthy (token_of h) with
  | None => None
  | Some token =>
      match verify token with
      | None => None
      | Some id =>
          if fault then None
          else match users !! id with
               | Some u => Some (mkUser id (ud_username u) (ud_avatar u))
               | None => None
               end
      end
  end.

End Handshake.
Export Handshake.

(** ** The watchlist of a user ([models/User.js]) *)

Module Watchlist.

(** An entry of [watchedAsteroids]. *)
Record Watched := mkWatched {
  w_asteroidId : jsstring;
  w_addedAt : Z;
  w_notes : jsstring
}.

(** The user collection, by what the watchlist methods write, with its own
    schedule of I/O faults. *)
Record UserDb := mkUserDb {
  watchlists : gmap oid (list Watched);
  user_faults : list bool
}.

(** [this.save()] of the user document [uid] whose watchlist is [wl]:
    the database after it, and whether the promise resolved. *)
Definition save_user (uid : oid) (wl : list Watched) (udb : UserDb) : UserDb * bool :=
  match user_faults udb with
  | true :: fs => (mkUserDb (watchlists udb) fs, false)
  | false :: fs => (mkUserDb (<[uid := wl]> (watchlists udb)) fs, true)
  | [] => (mkUserDb (<[uid := wl]> (watchlists udb)) [], true)
  end.

(** [isAsteroidWatched(asteroidId)] *)
Definition isAsteroidWatched (aid : jsstring) (wl : list Watched) : bool :=
  existsb (λ w, bool_decide (w_asteroidId w = aid)) wl.

(** [addToWatchlist(asteroidId, notes = '')] on the document [uid] with the
    watchlist [wl]: the watchlist of the document afterwards, the database,
    and whether the returned promise resolved.  [now] is the default of
    [addedAt]. *)
Definition addToWatchlist (now : Z) (uid : oid) (aid : jsstring)
    (notes : option jsstring) (wl : list Watched) (udb : UserDb)
    : list Watched * UserDb * bool :=
  if negb (isAsteroidWatched aid wl) then
    let wl' := wl ++ [mkWatched aid now (default [] notes)] in
    let '(udb', ok) := save_user uid wl' udb in (wl', udb', ok)
  else (wl, udb, true).

(** [removeFromWatchlist(asteroidId)] *)
Definition removeFromWatchlist (uid : oid) (aid : jsstring)
    (wl : list Watched) (udb : UserDb) : list Watched * UserDb * bool :=
  let wl' := List.filter (λ w, negb (bool_decide (w_asteroidId w = aid))) wl in
  let '(udb', ok) := save_user uid wl' udb in (wl', udb', ok).

(** The asteroid ids of a watchlist. *)
Definition watched_ids (wl : list Watched) : list jsstring := w_asteroidId <$> wl.

End Watchlist.
Export Watchlist.

(** ** More of the scenario *)

Module Cases.
Import Scenario.

(** The guest's socket once it has joined [topic]. *)
Definition guest_in_topic : Socket :=
  mkSocket None (js "Guest") None {[ sG; room_of topic ]}
    (Some topic) (Some (room_of topic)).

(** A send of ["hello"] to [topic]. *)
Definition say_hello : sendData :=
  mkSendData (Some topic) (Some (js "3542519")) None (Some (js "hello")) None.

(** The id of a saved asteroid document. *)
Definition saved_asteroid : jsstring := js "65a1b2c3d4e5f60718293a4b".

(** A store that holds that asteroid, serves two calls and fails the third
    at both of its attempts. *)
Definition flaky_populate : Db :=
  mkDb ∅ {[ saved_asteroid := mkAsteroid (js "3542519") (js "(2025 AB)") ]}
    [false; false; true; true].

(** A verifier that accepts the one token ["good"], for the user 1. *)
Definition verify_good (token : jsstring) : option oid :=
  if bool_decide (token = js "good") then Some 1%N else None.

Definition one_user : gmap oid UserDoc :=
  {[ 1%N := mkUserDoc (js "alice") None ]}.

End Cases.

(** * Proofs *)

(** ** The store operations *)

Section store_ops.

Lemma roundtrip_messages db : messages (roundtrip db).2 = messages db.
Proof. unfold roundtrip. by destruct (faults db) as [|[] [|? ?]]. Qed.

Lemma roundtrip_asteroids db : asteroids (roundtrip db).2 = asteroids db.
Proof. unfold roundtrip. by destruct (faults db) as [|[] [|? ?]]. Qed.

Lemma roundtrip_healthy db :
  healthy db → (roundtrip db).1 = false ∧ healthy (roundtrip db).2.
Proof.
  unfold healthy, roundtrip. destruct (faults db) as [|f fs] eqn:E; simpl.
  - rewrite E. by split.
  - intros [-> H]%Forall_cons. by split.
Qed.

Lemma roundtrip_fault db fs :
  faults db = true :: true :: fs →
  roundtrip db = (true, mkDb (messages db) (asteroids db) fs).
Proof. unfold roundtrip. by intros ->. Qed.

Lemma roundtrip_retried db fs :
  faults db = true :: false :: fs →
  roundtrip db = (false, mkDb (messages db) (asteroids db) fs).
Proof. unfold roundtrip. by intros ->. Qed.

Lemma roundtrip_served db fs :
  faults db = false :: fs →
  roundtrip db = (false, mkDb (messages db) (asteroids db) fs).
Proof. unfold roundtrip. by intros ->. Qed.

Lemma findById_spec id db :
  messages (findById id db).2 = messages db
  ∧ ((findById id db).1 = Thrown ∨ (findById id db).1 = Ok (messages db !! id)).
Proof.
  unfold findById. pose proof (roundtrip_messages db) as H.
  destruct (roundtrip db) as [[] db']; simpl in *; rewrite ?H; auto.
Qed.

Lemma save_spec t id m db :
  ((save t id m db).1 = Thrown ∧ messages (save t id m db).2 = messages db)
  ∨ ((save t id m db).1 = Ok (set_updatedAt t m)
     ∧ messages (save t id m db).2 = <[id := set_updatedAt t m]> (messages db)).
Proof.
  unfold save. pose proof (roundtrip_messages db) as H.
  destruct (roundtrip db) as [[] db']; simpl in *; rewrite ?H; auto.
Qed.

Lemma save_new_spec id m db :
  ((save_new id m db).1 = Thrown ∧ messages (save_new id m db).2 = messages db)
  ∨ ((save_new id m db).1 = Ok m ∧ messages db !! id = None
     ∧ messages (save_new id m db).2 = <[id := m]> (messages db)).
Proof.
  unfold save_new. pose proof (roundtrip_messages db) as H.
  destruct (roundtrip db) as [[] db']; simpl in *; [rewrite H; auto|].
  rewrite H. destruct (messages db !! id) eqn:E; simpl; rewrite ?H; auto.
Qed.

Lemma find_query_messages aid n before db :
  messages (find_query aid n before db).2 = messages db.
Proof.
  unfold find_query. pose proof (roundtrip_messages db) as H.
  by destruct (roundtrip db) as [[] db'].
Qed.

Lemma findById_healthy id db :
  healthy db →
  (findById id db).1 = Ok (messages db !! id) ∧ healthy (findById id db).2
  ∧ messages (findById id db).2 = messages db.
Proof.
  intros H. unfold findById. destruct (roundtrip_healthy db H) as [Hb Hh].
  pose proof (roundtrip_messages db) as Hm.
  destruct (roundtrip db) as [b db']; simpl in *; subst b. by rewrite Hm.
Qed.

Lemma save_healthy t id m db :
  healthy db →
  (save t id m db).1 = Ok (set_updatedAt t m) ∧ healthy (save t id m db).2
  ∧ messages (save t id m db).2 = <[id := set_updatedAt t m]> (messages db).
Proof.
  intros H. unfold save. destruct (roundtrip_healthy db H) as [Hb Hh].
  pose proof (roundtrip_messages db) as Hm.
  destruct (roundtrip db) as [b db']; simpl in *; subst b. by rewrite Hm.
Qed.

Lemma save_new_healthy id m db :
  healthy db → messages db !! id = None →
  (save_new id m db).1 = Ok m ∧ healthy (save_new id m db).2
  ∧ messages (save_new id m db).2 = <[id := m]> (messages db).
Proof.
  intros H Hid. unfold save_new. destruct (roundtrip_healthy db H) as [Hb Hh].
  pose proof (roundtrip_messages db) as Hm.
  destruct (roundtrip db) as [b db']; simpl in *; subst b.
  rewrite Hm, Hid. simpl. by rewrite ?Hm.
Qed.

Lemma find_query_healthy aid n before db :
  healthy db →
  (find_query aid n before db).1 = Ok (find_sorted aid n before (messages db))
  ∧ healthy (find_query aid n before db).2.
Proof.
  intros H. unfold find_query. destruct (roundtrip_healthy db H) as [Hb Hh].
  pose proof (roundtrip_messages db) as Hm.
  destruct (roundtrip db) as [b db']; simpl in *; subst b. by rewrite Hm.
Qed.

End store_ops.

(** ** What a handler can do to the collection *)

Section transitions.

Local Ltac use_spec :=
  match goal with
  | H : save_new ?i ?m ?db = _ |- _ =>
      destruct (save_new_spec i m db) as [[? ?]|(?&?&?)]; rewrite H in *; clear H
  | H : save ?t ?i ?m ?db = _ |- _ =>
      destruct (save_spec t i m db) as [[? ?]|[? ?]]; rewrite H in *; clear H
  | H : findById ?i ?db = _ |- _ =>
      destruct (findById_spec i db) as [? [?|?]]; rewrite H in *; clear H
  | H : find_query ?a ?n ?b ?db = _ |- _ =>
      pose proof (find_query_messages a n b db); rewrite H in *; clear H
  | H : roundtrip ?db = _ |- _ =>
      pose proof (roundtrip_messages db); rewrite H in *; clear H
  end; simpl in *; simplify_eq.

Local Ltac settle :=
  repeat case_match; simpl; try (by constructor);
  repeat use_spec;
  repeat match goal with H : messages _ = _ |- _ => rewrite H end;
  try (by constructor).

Lemma sendMessage_msgs e s d ss db :
  msgs_step (messages db) (messages (sendMessage e s d ss db).1).
Proof. unfold sendMessage. settle. Qed.

Lemma addReaction_msgs e s mid emoji ss db :
  msgs_step (messages db) (messages (addReaction e s mid emoji ss db).1).
Proof.
  unfold addReaction. settle.
  eapply ms_upd; [done|]. apply ds_react.
Qed.

Lemma deleteMessage_msgs e s mid ss db :
  msgs_step (messages db) (messages (deleteMessage e s mid ss db).1).
Proof.
  unfold deleteMessage. settle.
  eapply ms_upd; [done|]. apply ds_delete.
Qed.

Lemma joinAsteroid_msgs s aid ss db :
  messages (joinAsteroid s aid ss db).1.2 = messages db.
Proof.
  unfold joinAsteroid, getChatHistory. destruct (ss !! s); [|done].
  pose proof (find_query_messages aid (default 50 (Some 50)) None db) as H.
  by destruct (find_query _ _ _ db) as [[] db'].
Qed.

Lemma get_messages_msgs aid lim before db :
  messages (get_messages aid lim before db).1 = messages db.
Proof.
  unfold get_messages.
  pose proof (find_query_messages aid (default 50 lim) before db) as H.
  by destruct (find_query _ _ _ db) as [[] db'].
Qed.

Lemma get_count_msgs aid db :
  messages (get_count aid db).1 = messages db.
Proof.
  unfold get_count, getMessageCount. pose proof (roundtrip_messages db) as H.
  by destruct (roundtrip db) as [[] db'].
Qed.

Lemma post_message_msgs e u aid msg reply db :
  msgs_step (messages db) (messages (post_message e u aid msg reply db).1).
Proof.
  unfold post_message, Asteroid_findById. settle.
  all: match goal with
       | H : messages _ = messages ?x |- msgs_step (messages ?x) _ => rewrite <- H
       end.
  all: by constructor.
Qed.

Lemma delete_message_msgs e u mid db :
  msgs_step (messages db) (messages (delete_message e u mid db).1).
Proof.
  unfold delete_message. settle.
  eapply ms_upd; [done|]. apply ds_delete.
Qed.

Lemma post_reaction_msgs e u mid emoji db :
  msgs_step (messages db) (messages (post_reaction e u mid emoji db).1).
Proof.
  unfold post_reaction. settle.
  eapply ms_upd; [done|]. apply ds_react.
Qed.

(** Every input moves the collection by one of the three moves. *)
Lemma step_msgs e i st :
  msgs_step (messages (store st)) (messages (store (step e i st).1)).
Proof.
  destruct i; simpl; try constructor.
  - pose proof (joinAsteroid_msgs s aid (socks st) (store st)) as H.
    destruct (joinAsteroid _ _ _ _) as [[ss db] out]; simpl in *. rewrite H. constructor.
  - destruct (leaveAsteroid _ _); constructor.
  - pose proof (sendMessage_msgs e s d (socks st) (store st)) as H.
    by destruct (sendMessage _ _ _ _ _).
  - pose proof (addReaction_msgs e s messageId emoji (socks st) (store st)) as H.
    by destruct (addReaction _ _ _ _ _ _).
  - pose proof (deleteMessage_msgs e s messageId (socks st) (store st)) as H.
    by destruct (deleteMessage _ _ _ _ _).
  - destruct (disconnect _ _); constructor.
  - pose proof (get_messages_msgs aid lim before (store st)) as H.
    destruct (get_messages _ _ _ _); simpl in *. rewrite H. constructor.
  - pose proof (post_message_msgs e u aid msg reply (store st)) as H.
    by destruct (post_message _ _ _ _ _ _).
  - pose proof (delete_message_msgs e u messageId (store st)) as H.
    by destruct (delete_message _ _ _ _).
  - pose proof (get_count_msgs aid (store st)) as H.
    destruct (get_count _ _); simpl in *. rewrite H. constructor.
  - pose proof (post_reaction_msgs e u messageId emoji (store st)) as H.
    by destruct (post_reaction _ _ _ _ _).
Qed.

End transitions.

(** ** Runs *)

Section runs.

Lemma run_cons e i tr st :
  run ((e, i) :: tr) st
  = ((run tr (step e i st).1).1, (step e i st).2 :: (run tr (step e i st).1).2).
Proof.
  cbn [run]. destruct (step e i st) as [st1 o]. cbn [fst snd].
  by destruct (run tr st1).
Qed.

(** A property of the collection kept by the three moves is kept by runs. *)
Lemma run_msgs_inv (P : gmap oid ChatMessage → Prop) :
  (∀ ms ms', P ms → msgs_step ms ms' → P ms') →
  ∀ tr st, P (messages (store st)) → P (messages (store (run tr st).1)).
Proof.
  intros HP tr. induction tr as [|[e i] tr IH]; intros st H; [done|].
  rewrite run_cons. simpl. apply IH. eapply HP; [exact H|]. apply step_msgs.
Qed.

End runs.

(** ** Reactions *)

Section reactions.

Lemma by_user_setReaction_same uid emoji t rs :
  by_user uid (setReaction uid emoji t rs) = [mkReaction emoji uid t].
Proof.
  unfold by_user, setReaction. rewrite List.filter_app. simpl.
  rewrite bool_decide_eq_true_2 by done.
  induction rs as [|r rs IH]; [done|]. simpl.
  destruct (decide (r_userId r = uid)) as [E|E].
  - by rewrite (bool_decide_eq_true_2 _ E).
  - rewrite (bool_decide_eq_false_2 _ E). simpl.
    by rewrite (bool_decide_eq_false_2 _ E).
Qed.

Lemma by_user_setReaction_other uid uid' emoji t rs :
  uid' ≠ uid → by_user uid' (setReaction uid emoji t rs) = by_user uid' rs.
Proof.
  intros Hne. unfold by_user, setReaction. rewrite List.filter_app. simpl.
  rewrite bool_decide_eq_false_2 by congruence. rewrite app_nil_r.
  induction rs as [|r rs IH]; [done|]. simpl.
  destruct (decide (r_userId r = uid)) as [E|E].
  - rewrite (bool_decide_eq_true_2 _ E). simpl.
    rewrite bool_decide_eq_false_2 by congruence. done.
  - rewrite (bool_decide_eq_false_2 _ E). simpl. by rewrite IH.
Qed.

Lemma setReaction_one_each uid emoji t rs :
  one_each rs → one_each (setReaction uid emoji t rs).
Proof.
  intros H uid'. destruct (decide (uid' = uid)) as [->|Hne].
  - by rewrite by_user_setReaction_same.
  - rewrite by_user_setReaction_other by done. apply H.
Qed.

Lemma doc_step_one_each m m' :
  doc_step m m' → one_each (reactions m) → one_each (reactions m').
Proof. intros [] H; simpl; [by apply setReaction_one_each | done]. Qed.

Lemma msgs_step_one_each (ms ms' : gmap oid ChatMessage) :
  (∀ id m, ms !! id = Some m → one_each (reactions m)) →
  msgs_step ms ms' →
  ∀ id m, ms' !! id = Some m → one_each (reactions m).
Proof.
  intros H [| id0 m0 Hn Hr _ | id0 m0 m0' Hs Hd] id m; [apply H | |].
  - rewrite lookup_insert. case_decide; [|apply H].
    intros [= <-] uid. rewrite Hr. simpl. lia.
  - rewrite lookup_insert. case_decide; [|apply H].
    intros [= <-]. eapply doc_step_one_each; [done|]. by eapply H.
Qed.

Lemma addReaction_healthy e s mid emoji ss db so uid m :
  healthy db → ss !! s = Some so → s_userId so = Some uid →
  messages db !! mid = Some m →
  let m' := set_updatedAt (now e)
              (set_reactions (setReaction uid emoji (now e) (reactions m)) m) in
  healthy (addReaction e s mid emoji ss db).1
  ∧ messages (addReaction e s mid emoji ss db).1 = <[mid := m']> (messages db)
  ∧ (addReaction e s mid emoji ss db).2
    = io_to ss (room_of (asteroidId m)) (reactionUpdated mid (reactions m')).
Proof.
  intros Hh Hs Hu Hm. unfold addReaction. rewrite Hs, Hu.
  destruct (findById_healthy mid db Hh) as (E1 & Hh1 & E2).
  destruct (findById mid db) as [r1 db1]; simpl in *; subst r1. rewrite Hm.
  match goal with |- context[save ?t ?i ?x db1] =>
    destruct (save_healthy t i x db1 Hh1) as (E3 & Hh2 & E4);
    destruct (save t i x db1) as [r2 db2] end.
  simpl in *; subst r2; simpl. by rewrite E4, E2.
Qed.

Lemma post_reaction_healthy e u mid emoji db m :
  healthy db → falsy emoji = false → messages db !! mid = Some m →
  let m' := set_updatedAt (now e)
              (set_reactions (setReaction (u_id u) emoji (now e) (reactions m)) m) in
  healthy (post_reaction e u mid emoji db).1
  ∧ messages (post_reaction e u mid emoji db).1 = <[mid := m']> (messages db)
  ∧ (post_reaction e u mid emoji db).2 = mkResponse 200 (reactionList (reactions m')).
Proof.
  intros Hh Hf Hm. unfold post_reaction. rewrite Hf.
  destruct (findById_healthy mid db Hh) as (E1 & Hh1 & E2).
  destruct (findById mid db) as [r1 db1]; simpl in *; subst r1. rewrite Hm.
  match goal with |- context[save ?t ?i ?x db1] =>
    destruct (save_healthy t i x db1 Hh1) as (E3 & Hh2 & E4);
    destruct (save t i x db1) as [r2 db2] end.
  simpl in *; subst r2; simpl. by rewrite E4, E2.
Qed.

(** A served reaction, on either channel, rewrites the user's reactions. *)
Lemma step_reaction e i st uid mid emoji m :
  healthy (store st) → messages (store st) !! mid = Some m →
  reaction_by (socks st) uid mid emoji i →
  socks (step e i st).1 = socks st
  ∧ healthy (store (step e i st).1)
  ∧ ∃ m', messages (store (step e i st).1) !! mid = Some m'
          ∧ reactions m' = setReaction uid emoji (now e) (reactions m).
Proof.
  intros Hh Hm [(s & so & -> & Hs & Hu) | (u & -> & <- & Hf)]; simpl.
  - destruct (addReaction_healthy e s mid emoji _ _ so uid m Hh Hs Hu Hm) as (H1 & H2 & _).
    destruct (addReaction _ _ _ _ _ _) as [db out]; simpl in *.
    repeat split; [done|]. eexists. rewrite H2, lookup_insert_eq. done.
  - destruct (post_reaction_healthy e u mid emoji _ m Hh Hf Hm) as (H1 & H2 & _).
    destruct (post_reaction _ _ _ _ _) as [db out]; simpl in *.
    repeat split; [done|]. eexists. rewrite H2, lookup_insert_eq. done.
Qed.

(** C1.  Started from a store in which no message has two reactions of one
    user (an empty one, say), every run of the server, whatever mix of
    socket events and REST requests, leaves at most one reaction per user
    on every message; and two served reactions of one user to one message,
    on either channel, leave exactly one reaction entry of that user, the
    one bearing the second emoji. *)
Theorem reactions_one_per_user (db : Db) (tr : list (Env * input))
    (Hdb : reactions_ok db) :
  let st := (run tr (boot db)).1 in
  (∀ id m uid, messages (store st) !! id = Some m →
     (length (by_user uid (reactions m)) ≤ 1)%nat)
  ∧ (∀ uid mid m e1 i1 emoji1 e2 i2 emoji2,
       healthy (store st) → messages (store st) !! mid = Some m →
       reaction_by (socks st) uid mid emoji1 i1 →
       reaction_by (socks st) uid mid emoji2 i2 →
       ∃ m2, messages (store (run [(e1, i1); (e2, i2)] st).1) !! mid = Some m2
             ∧ by_user uid (reactions m2) = [mkReaction emoji2 uid (now e2)]).
Proof.
  intros st. split.
  - intros id m uid Hm.
    pose proof (run_msgs_inv _ msgs_step_one_each tr (boot db) Hdb) as H.
    by apply (H id m).
  - intros uid mid m e1 i1 em1 e2 i2 em2 Hh Hm R1 R2.
    destruct (step_reaction e1 i1 st uid mid em1 m Hh Hm R1) as (S1 & Hh1 & m1 & Hm1 & _).
    rewrite <- S1 in R2.
    destruct (step_reaction e2 i2 _ uid mid em2 m1 Hh1 Hm1 R2) as (_ & _ & m2 & Hm2 & Hr).
    exists m2. rewrite run_cons, run_cons. simpl. split; [done|].
    rewrite Hr. apply by_user_setReaction_same.
Qed.

End reactions.

Section reactions_example.
Import Scenario.

Lemma reactions_one_per_user_witness :
  reactions_ok one_message
  ∧ ∃ m2,
      messages (store (run [(at_ 10 200, AddReaction sA 7 (Some thumbs_up));
                            (at_ 11 201, PostReaction alice 7 (Some heart))]
                         (run [(at_ 1 100, Connect sA (Some alice))]
                            (boot one_message)).1).1) !! 7%N = Some m2
      ∧ by_user 1%N (reactions m2) = [mkReaction (Some heart) 1%N 11].
Proof.
  assert (Hok : reactions_ok one_message).
  { intros id m H uid. simpl in H.
    apply lookup_singleton_Some in H as [_ <-]. simpl. lia. }
  split; [exact Hok|].
  apply (proj2 (reactions_one_per_user one_message
                  [(at_ 1 100, Connect sA (Some alice))] Hok)
           1%N 7%N (hello 100) (at_ 10 200) _ (Some thumbs_up) (at_ 11 201) _ (Some heart)).
  - vm_compute. constructor.
  - vm_compute. reflexivity.
  - left. eexists sA, _. split; [reflexivity|]. split; vm_compute; reflexivity.
  - right. exists alice. split; [reflexivity|]. split; vm_compute; reflexivity.
Defined.

End reactions_example.

(** ** History *)

(** Membership of an event in the deliveries of a handler, by cases. *)
Ltac kill H :=
  first [ by apply elem_of_nil in H
        | by apply list_elem_of_singleton in H
        | by apply list_elem_of_fmap in H as (?&[=]&_)
        | apply elem_of_app in H as [H|H]; kill H ].

Ltac open_handlers H :=
  unfold leaveAsteroid, sendMessage, typing, stopTyping, addReaction,
    deleteMessage, disconnect, socket_emit, socket_to, io_to in H;
  repeat case_match; simplify_eq; simpl in H.

Section history.

Lemma elem_of_insert_desc d x l : x ∈ insert_desc d l ↔ x = d ∨ x ∈ l.
Proof.
  induction l as [|e l IH]; simpl.
  - by rewrite elem_of_cons.
  - destruct (createdAt e.2 <=? createdAt d.2).
    + by rewrite elem_of_cons.
    + rewrite !elem_of_cons, IH. tauto.
Qed.

Lemma elem_of_sort_desc x l : x ∈ sort_desc l ↔ x ∈ l.
Proof.
  induction l as [|e l IH]; simpl; [done|].
  by rewrite elem_of_insert_desc, IH, elem_of_cons.
Qed.

Lemma length_insert_desc d l : length (insert_desc d l) = S (length l).
Proof.
  induction l as [|e l IH]; simpl; [done|].
  destruct (createdAt e.2 <=? createdAt d.2); simpl; lia.
Qed.

Lemma length_sort_desc l : length (sort_desc l) = length l.
Proof.
  induction l as [|e l IH]; simpl; [done|]. by rewrite length_insert_desc, IH.
Qed.

Lemma insert_desc_sorted d l : descending l → descending (insert_desc d l).
Proof.
  unfold descending. induction l as [|e l IH]; simpl; intros H.
  - by repeat constructor.
  - apply StronglySorted_cons in H as [Hall Hl].
    destruct (createdAt e.2 <=? createdAt d.2) eqn:E.
    + apply Z.leb_le in E. constructor; [by constructor|].
      constructor; [done|]. eapply Forall_impl; [exact Hall|]. simpl. lia.
    + apply Z.leb_gt in E. constructor; [by apply IH|].
      apply Forall_forall. intros x [->|Hx]%elem_of_insert_desc; [lia|].
      rewrite Forall_forall in Hall. by apply Hall.
Qed.

Lemma sort_desc_sorted l : descending (sort_desc l).
Proof.
  induction l as [|e l IH]; simpl; [constructor|]. by apply insert_desc_sorted.
Qed.

Lemma limit_prefix n l : ∃ k, l = limit n l ++ k.
Proof.
  unfold limit. destruct (n =? 0).
  - exists []. by rewrite app_nil_r.
  - exists (drop (Z.abs_nat n) l). by rewrite take_drop.
Qed.

Lemma limit_sorted n l : descending l → descending (limit n l).
Proof.
  destruct (limit_prefix n l) as [k Hk]. intros H. rewrite Hk in H.
  by apply StronglySorted_app_1_l in H.
Qed.

Lemma elem_of_limit n l x : x ∈ limit n l → x ∈ l.
Proof.
  destruct (limit_prefix n l) as [k Hk]. rewrite Hk at 2.
  rewrite elem_of_app. by left.
Qed.

Lemma reverse_ascending l : descending l → ascending (reverse l).
Proof.
  unfold descending, ascending. induction l as [|e l IH]; intros H; [constructor|].
  apply StronglySorted_cons in H as [Hall Hl]. rewrite reverse_cons.
  apply StronglySorted_app_2; [|by apply IH|by repeat constructor].
  intros x y Hx ->%list_elem_of_singleton. rewrite elem_of_reverse in Hx.
  rewrite Forall_forall in Hall. by apply Hall.
Qed.

Lemma find_sorted_desc aid n before ms : descending (find_sorted aid n before ms).
Proof. apply limit_sorted, sort_desc_sorted. Qed.

Lemma matches_spec aid before d :
  matches aid before d = true ↔
  asteroidId d.2 = aid ∧ deleted d.2 = false ∧ msgType d.2 ≠ system
  ∧ ∀ t, before = Some t → createdAt d.2 < t.
Proof.
  unfold matches. rewrite !andb_true_iff, !negb_true_iff, !bool_decide_eq_true, bool_decide_eq_false.
  destruct before as [t|].
  - rewrite Z.ltb_lt. split.
    + intros [[[? ?] ?] ?]. repeat split; try done. by intros ? [= <-].
    + intros (?&?&?&H). repeat split; try done. by apply H.
  - split; [intros [[[? ?] ?] ?]|intros (?&?&?&?)]; repeat split; done.
Qed.

Lemma find_sorted_elem aid n before (ms : gmap oid ChatMessage) id m :
  (id, m) ∈ find_sorted aid n before ms →
  ms !! id = Some m ∧ asteroidId m = aid ∧ deleted m = false
  ∧ msgType m ≠ system ∧ ∀ t, before = Some t → createdAt m < t.
Proof.
  unfold find_sorted. intros H. apply elem_of_limit in H.
  rewrite elem_of_sort_desc, list_elem_of_In, filter_In in H. destruct H as [H1 H2].
  rewrite <- list_elem_of_In in H1. apply (proj1 (elem_of_map_to_list ms id m)) in H1.
  rewrite matches_spec in H2. by split.
Qed.

(** Only [joinAsteroid] emits a [chatHistory]. *)
Lemma emitted_chatHistory e i st s l :
  (s, chatHistory l) ∈ emitted (step e i st).2 →
  ∃ aid, i = JoinAsteroid s aid
         ∧ (l = [] ∨ l = reverse (find_sorted aid 50 None (messages (store st)))).
Proof.
  intros Hs. destruct i; simpl in Hs; try (open_handlers Hs; kill Hs).
  unfold joinAsteroid, getChatHistory, find_query in Hs.
  pose proof (roundtrip_messages (store st)) as Hm.
  destruct (socks st !! s0) as [so|]; simpl in Hs; [|by apply elem_of_nil in Hs].
  destruct (roundtrip (store st)) as [[] db']; simpl in *.
  - apply elem_of_cons in Hs as [[= -> ->]|Hs]; [by eexists; split; [|left]|kill Hs].
  - apply elem_of_cons in Hs as [[= -> ->]|Hs]; [|kill Hs].
    eexists; split; [done|]. right. by rewrite Hm.
Qed.

(** Only [GET /:asteroidId/messages] answers with a message list. *)
Lemma replied_messageList e i st c n l :
  replied (step e i st).2 = Some (mkResponse c (messageList n l)) →
  ∃ aid lim before, i = GetMessages aid lim before
    ∧ l = reverse (find_sorted aid (default 50 lim) before (messages (store st))).
Proof.
  intros Hr. destruct i; simpl in Hr;
    try (by repeat case_match; simplify_eq).
  all: unfold get_messages, post_message, delete_message, get_count, post_reaction,
         getMessageCount, Asteroid_findById, find_query in Hr.
  all: pose proof (roundtrip_messages (store st)) as Hm.
  all: repeat case_match; simplify_eq; simpl in *.
  injection Hr as <- <- <-. rewrite Hm. by eexists _, _, _.
Qed.

Lemma delivered_history_inv e i st l :
  delivered_history (step e i st).2 l →
  l = [] ∨ ∃ aid n, topic_of i = Some aid
                    ∧ l = reverse (find_sorted aid n (cursor_of i) (messages (store st))).
Proof.
  intros [[s Hs]|(c & n & Hr)].
  - apply emitted_chatHistory in Hs as (aid & -> & [->| ->]); [by left|].
    right. by eexists _, _.
  - apply replied_messageList in Hr as (aid & lim & before & -> & ->).
    right. by eexists _, _.
Qed.

Lemma doc_step_deleted m m' : doc_step m m' → deleted m = true → deleted m' = true.
Proof. by intros []. Qed.

Lemma msgs_step_deleted id (ms ms' : gmap oid ChatMessage) :
  (∃ m, ms !! id = Some m ∧ deleted m = true) →
  msgs_step ms ms' →
  ∃ m, ms' !! id = Some m ∧ deleted m = true.
Proof.
  intros (m & Hm & Hd) [| id0 m0 Hn _ _ | id0 m0 m0' Hs Hstep]; [by exists m | |].
  - exists m. rewrite lookup_insert_ne; [done|]. congruence.
  - destruct (decide (id0 = id)) as [->|Hne].
    + exists m0'. rewrite lookup_insert_eq. split; [done|].
      eapply doc_step_deleted; [done|]. congruence.
    + exists m. by rewrite lookup_insert_ne.
Qed.

(** A message once flagged as deleted stays stored and flagged. *)
Lemma run_keeps_deleted tr st id m :
  messages (store st) !! id = Some m → deleted m = true →
  ∃ m', messages (store (run tr st).1) !! id = Some m' ∧ deleted m' = true.
Proof.
  intros Hm Hd.
  apply (run_msgs_inv (λ ms, ∃ m, ms !! id = Some m ∧ deleted m = true)).
  - intros ms ms'. apply msgs_step_deleted.
  - by exists m.
Qed.

(** C5.  Whatever history a query delivers, to a joining socket or as a
    REST response, is in ascending order of creation time and holds only
    stored messages of the queried topic that are not deleted and not of
    the system type, all created strictly before the cursor when there is
    one; and a message flagged as deleted at any earlier point of the run
    is in no history delivered afterwards. *)
Theorem history_ascending_without_deleted
    (st0 : State) (tr : list (Env * input)) (e : Env) (i : input) (l : list stored)
    (H : delivered_history (step e i (run tr st0).1).2 l) :
  ascending l
  ∧ (∀ id m, (id, m) ∈ l →
       messages (store (run tr st0).1) !! id = Some m
       ∧ Some (asteroidId m) = topic_of i
       ∧ deleted m = false ∧ msgType m ≠ system
       ∧ ∀ t, cursor_of i = Some t → createdAt m < t)
  ∧ (∀ id m0, messages (store st0) !! id = Some m0 → deleted m0 = true →
       ∀ m, (id, m) ∉ l).
Proof.
  assert (Hin : ∀ id m, (id, m) ∈ l →
       messages (store (run tr st0).1) !! id = Some m
       ∧ Some (asteroidId m) = topic_of i
       ∧ deleted m = false ∧ msgType m ≠ system
       ∧ ∀ t, cursor_of i = Some t → createdAt m < t).
  { intros id m Hl.
    apply delivered_history_inv in H as [->|(aid & n & Ht & ->)];
      [by apply elem_of_nil in Hl|].
    rewrite elem_of_reverse in Hl.
    apply find_sorted_elem in Hl as (? & <- & ? & ? & ?). by rewrite Ht. }
  split; [|split; [exact Hin|]].
  - apply delivered_history_inv in H as [->|(aid & n & _ & ->)]; [constructor|].
    apply reverse_ascending, find_sorted_desc.
  - intros id m0 Hm0 Hd m Hl.
    destruct (run_keeps_deleted tr st0 id m0 Hm0 Hd) as (m' & Hm' & Hd').
    apply Hin in Hl as (Hm & _ & Hf & _). congruence.
Qed.

End history.

Section history_example.
Import Scenario.

Lemma history_ascending_without_deleted_witness :
  let l := [(7%N, hello 100); (9%N, hello 130)] in
  ascending l
  ∧ (∀ id m, (id, m) ∈ l →
       messages archive !! id = Some m
       ∧ Some (asteroidId m) = Some topic
       ∧ deleted m = false ∧ msgType m ≠ system
       ∧ ∀ t, None = Some t → createdAt m < t)
  ∧ (∀ id m0, messages archive !! id = Some m0 → deleted m0 = true →
       ∀ m, (id, m) ∉ l).
Proof.
  apply (history_ascending_without_deleted (boot archive)
           [(at_ 1 100, Connect sA (Some alice))] (at_ 2 101)
           (JoinAsteroid sA topic)).
  left. exists sA. vm_compute. constructor.
Defined.

End history_example.

(** ** The size of a history *)

Section history_size.

Lemma length_limit n l : 0 < n → (length (limit n l) ≤ Z.to_nat n)%nat.
Proof.
  intros Hn. unfold limit. destruct (n =? 0) eqn:E; [apply Z.eqb_eq in E; lia|].
  rewrite length_take. lia.
Qed.

Lemma length_find_sorted aid n before ms :
  0 < n → (length (find_sorted aid n before ms) ≤ Z.to_nat n)%nat.
Proof. apply length_limit. Qed.

(** C6, as the code has it.  The history sent to a joining socket holds at
    most 50 messages.  The REST route returns at most as many messages as
    the limit it runs the query with, which is 50 when the request names
    none and otherwise the (positive) limit of the request, whatever its
    size. *)
Theorem history_length_at_most_limit
    (e : Env) (i : input) (st : State) (l : list stored)
    (H : delivered_history (step e i st).2 l) :
  (∀ s aid, i = JoinAsteroid s aid → (length l ≤ 50)%nat)
  ∧ (∀ aid lim before, i = GetMessages aid lim before → 0 < default 50 lim →
       (length l ≤ Z.to_nat (default 50%Z lim))%nat).
Proof.
  split.
  - intros s aid ->. destruct H as [[s' Hs]|(c & n & Hr)];
      [|by apply replied_messageList in Hr as (?&?&?&[=]&_)].
    apply emitted_chatHistory in Hs as (aid' & _ & [->| ->]); simpl; [lia|].
    rewrite length_reverse. by apply (length_find_sorted _ 50).
  - intros aid lim before -> Hpos. destruct H as [[s' Hs]|(c & n & Hr)].
    + by apply emitted_chatHistory in Hs as (aid' & [=] & _).
    + apply replied_messageList in Hr as (aid' & lim' & before' & [= <- <- <-] & ->).
      rewrite length_reverse. by apply length_find_sorted.
Qed.

End history_size.

Section history_size_example.
Import Scenario.

Lemma history_length_at_most_limit_witness :
  let l := reverse (find_sorted topic 10 None (messages crowded)) in
  (∀ s aid, GetMessages topic (Some 10) None = JoinAsteroid s aid → (length l ≤ 50)%nat)
  ∧ (∀ aid lim before, GetMessages topic (Some 10) None = GetMessages aid lim before →
       0 < default 50 lim → (length l ≤ Z.to_nat (default 50%Z lim))%nat).
Proof.
  apply (history_length_at_most_limit (at_ 1 1000) (GetMessages topic (Some 10) None)
           (boot crowded)).
  right. by eexists _, _.
Defined.

(** A request for 51 messages of a topic that has 51 gets them all. *)
Lemma rest_limit_counterexample :
  ¬ (∀ l, delivered_history
            (step (at_ 1 1000) (GetMessages topic (Some 51) None) (boot crowded)).2 l →
          (length l ≤ 50)%nat).
Proof.
  intros H.
  specialize (H (reverse (find_sorted topic 51 None (messages crowded)))).
  assert (Hlen : length (reverse (find_sorted topic 51 None (messages crowded))) = 51%nat)
    by (vm_compute; reflexivity).
  rewrite Hlen in H. enough (51 ≤ 50)%nat by lia. apply H.
  right. by eexists _, _.
Qed.

End history_size_example.

(** ** Sending *)

Section sending.

Lemma truthy_Some x b : truthy x = Some b ↔ x = Some b ∧ b ≠ [].
Proof.
  unfold truthy, falsy. destruct x as [c|]; [|split; [done|by intros [? _]]].
  case_bool_decide as E; split.
  - done.
  - intros [[= ->] ?]. done.
  - intros [= ->]. done.
  - by intros [-> _].
Qed.

Lemma body_ok_checks msg b :
  body_ok msg b ↔
  truthy msg = Some b
  ∧ bool_decide (length (trim b) = 0%nat) = false
  ∧ bool_decide (2000 < length b)%nat = false.
Proof.
  unfold body_ok. rewrite truthy_Some, !bool_decide_eq_false. split.
  - intros (-> & Ht & Hl). repeat split; [|by intros E%nil_length_inv|lia].
    intros ->. by apply Ht.
  - intros ((-> & _) & Ht & Hl). repeat split; [|lia]. intros E. by rewrite E in Ht.
Qed.

(** The socket handler turns a send down unless it is authenticated and its
    body passes. *)
Lemma sendMessage_rejects e s d ss db so :
  ss !! s = Some so →
  s_userId so = None ∨ (∀ b, ¬ body_ok (d_message d) b) →
  ∃ reason, sendMessage e s d ss db = (db, [(s, chatError reason)]).
Proof.
  intros Hs Hbad. unfold sendMessage, socket_emit. rewrite Hs.
  repeat case_match; simplify_eq; try (by eexists).
  all: destruct Hbad as [?|Hbad]; [congruence|].
  all: exfalso; eapply Hbad; by apply body_ok_checks.
Qed.

Lemma sendMessage_accepts e s d ss db so uid b aid neo :
  ss !! s = Some so → s_userId so = Some uid → body_ok (d_message d) b →
  truthy (d_asteroidId d) = Some aid → truthy (d_neoReferenceId d) = Some neo →
  healthy db → messages db !! new_id e = None →
  let m := mkChatMessage aid neo (or_else (d_asteroidName d) (js "Unknown"))
             uid (s_username so) (s_userAvatar so) (trim b) text (d_replyTo d)
             [] false None false None (now e) (now e) in
  messages (sendMessage e s d ss db).1 = <[new_id e := m]> (messages db)
  ∧ (sendMessage e s d ss db).2 = io_to ss (room_of aid) (newMessage (new_id e) m).
Proof.
  intros Hs Hu (Hb & Ht & Hl)%body_ok_checks Ha Hn Hh Hf m.
  unfold sendMessage. rewrite Hs, Ha, Hn, Hb, Ht, Hl, Hu. fold m.
  destruct (save_new_healthy (new_id e) m db Hh Hf) as (E1 & _ & E2).
  destruct (save_new (new_id e) m db) as [r db']; simpl in *; by subst r.
Qed.

Lemma post_message_rejects e u aid msg reply db :
  (∀ b, ¬ body_ok msg b) →
  ∃ reason, post_message e u aid msg reply db = (db, mkResponse 400 (failure reason)).
Proof.
  intros Hbad. unfold post_message.
  repeat case_match; simplify_eq; try (by eexists).
  all: exfalso; eapply Hbad; by apply body_ok_checks.
Qed.

Lemma post_message_accepts e u aid msg reply db b a :
  body_ok msg b → asteroids db !! aid = Some a →
  healthy db → messages db !! new_id e = None →
  let m := mkChatMessage aid (a_neoReferenceId a) (a_name a)
             (u_id u) (u_username u) (u_avatar u) (trim b) text reply
             [] false None false None (now e) (now e) in
  messages (post_message e u aid msg reply db).1 = <[new_id e := m]> (messages db)
  ∧ (post_message e u aid msg reply db).2 = mkResponse 201 (created (new_id e) m).
Proof.
  intros (Hb & Ht & Hl)%body_ok_checks Ha Hh Hf m.
  unfold post_message, Asteroid_findById. rewrite Hb, Ht, Hl.
  destruct (roundtrip_healthy db Hh) as [E0 Hh1].
  pose proof (roundtrip_messages db) as Hm1. pose proof (roundtrip_asteroids db) as Ha1.
  destruct (roundtrip db) as [b1 db1]; simpl in *; subst b1. rewrite Ha1, Ha. fold m.
  rewrite <- Hm1 in Hf.
  destruct (save_new_healthy (new_id e) m db1 Hh1 Hf) as (E1 & Hh2 & E2).
  destruct (save_new (new_id e) m db1) as [r db2]; simpl in *; subst r.
  destruct (roundtrip_healthy db2 Hh2) as [E3 _].
  pose proof (roundtrip_messages db2) as Hm3.
  destruct (roundtrip db2) as [b3 db3]; simpl in *; subst b3. simpl.
  by rewrite Hm3, E2, Hm1.
Qed.

(** C3, as the code has it.  A send by an anonymous socket, or with a body
    that is missing, empty once trimmed, or longer than 2000 code units,
    gets one [chatError], delivered to the sender alone, and leaves the
    database as it was; so does the REST route, with status 400, for such
    a body.  A send that is authenticated and has a passing body is stored
    with the trimmed body, and broadcast to the topic's room, when it also
    names a non-empty [asteroidId] and [neoReferenceId] and the write is
    served under a fresh id; on the REST route, when the asteroid is on
    record, and the answer is 201 with the stored message. *)
Theorem send_checked_then_stored
    (e : Env) (s : sid) (d : sendData) (ss : sockets) (db : Db) (so : Socket)
    (Hs : ss !! s = Some so) :
  (s_userId so = None ∨ (∀ b, ¬ body_ok (d_message d) b) →
     ∃ reason, sendMessage e s d ss db = (db, [(s, chatError reason)]))
  ∧ (∀ uid b aid neo,
       s_userId so = Some uid → body_ok (d_message d) b →
       truthy (d_asteroidId d) = Some aid → truthy (d_neoReferenceId d) = Some neo →
       healthy db → messages db !! new_id e = None →
       ∃ m, message m = trim b ∧ userId m = uid ∧ asteroidId m = aid
            ∧ messages (sendMessage e s d ss db).1 = <[new_id e := m]> (messages db)
            ∧ (sendMessage e s d ss db).2
              = io_to ss (room_of aid) (newMessage (new_id e) m))
  ∧ (∀ u aid msg reply,
       (∀ b, ¬ body_ok msg b) →
       ∃ reason, post_message e u aid msg reply db
                 = (db, mkResponse 400 (failure reason)))
  ∧ (∀ u aid msg reply b a,
       body_ok msg b → asteroids db !! aid = Some a →
       healthy db → messages db !! new_id e = None →
       ∃ m, message m = trim b ∧ userId m = u_id u ∧ asteroidId m = aid
            ∧ messages (post_message e u aid msg reply db).1
              = <[new_id e := m]> (messages db)
            ∧ (post_message e u aid msg reply db).2
              = mkResponse 201 (created (new_id e) m)).
Proof.
  repeat split.
  - by apply sendMessage_rejects.
  - intros uid b aid neo Hu Hb Ha Hn Hh Hf.
    destruct (sendMessage_accepts e s d ss db so uid b aid neo) as [E1 E2]; try done.
    eexists. split_and!; [| | |exact E1|exact E2]; done.
  - intros. by apply post_message_rejects.
  - intros u aid msg reply b a Hb Ha Hh Hf.
    destruct (post_message_accepts e u aid msg reply db b a) as [E1 E2]; try done.
    eexists. split_and!; [| | |exact E1|exact E2]; done.
Qed.

End sending.

Section sending_example.
Import Scenario.

Lemma send_checked_then_stored_witness :
  let st := (run both_joined (boot empty_db)).1 in
  let d := mkSendData (Some topic) (Some (js "3542519")) None (Some (js "  hello ")) None in
  ∃ m, message m = js "hello" ∧ userId m = 1%N ∧ asteroidId m = topic
       ∧ messages (sendMessage (at_ 5 500) sA d (socks st) (store st)).1
         = <[500%N := m]> (messages (store st))
       ∧ (sendMessage (at_ 5 500) sA d (socks st) (store st)).2
         = io_to (socks st) (room_of topic) (newMessage 500%N m).
Proof.
  intros st d.
  assert (Hs : ∃ so, socks st !! sA = Some so ∧ s_userId so = Some 1%N).
  { eexists. split; [vm_compute; reflexivity|reflexivity]. }
  destruct Hs as (so & Hs & Hu).
  apply (proj1 (proj2 (send_checked_then_stored (at_ 5 500) sA d (socks st) (store st) so Hs))
           1%N (js "  hello ") topic (js "3542519")).
  - exact Hu.
  - split; [reflexivity|]. split; [by vm_compute|vm_compute; lia].
  - reflexivity.
  - reflexivity.
  - vm_compute. constructor.
  - vm_compute. reflexivity.
Defined.

(** An authenticated send with a passing body, but without the
    [neoReferenceId] field, is turned down and nothing is stored. *)
Lemma send_without_reference_counterexample :
  let st := (run both_joined (boot empty_db)).1 in
  let d := mkSendData (Some topic) None None (Some (js "hello")) None in
  (∃ so, socks st !! sA = Some so ∧ s_userId so = Some 1%N)
  ∧ body_ok (d_message d) (js "hello")
  ∧ (sendMessage (at_ 5 500) sA d (socks st) (store st)).2
    = [(sA, chatError (js "Neo Reference ID is missing"))]
  ∧ ¬ (∃ id m, messages (sendMessage (at_ 5 500) sA d (socks st) (store st)).1 !! id
               = Some m).
Proof.
  intros st d. split; [|split; [|split]].
  - eexists. split; [vm_compute; reflexivity|reflexivity].
  - split; [reflexivity|]. split; [by vm_compute|vm_compute; lia].
  - vm_compute. reflexivity.
  - intros (id & m & H).
    assert (E : messages (sendMessage (at_ 5 500) sA d (socks st) (store st)).1 = ∅)
      by (vm_compute; reflexivity).
    rewrite E in H. by rewrite lookup_empty in H.
Qed.

End sending_example.

(** ** Deleting *)

Section deleting.

Lemma deleteMessage_other e s mid ss db so uid m :
  ss !! s = Some so → s_userId so = Some uid → messages db !! mid = Some m →
  healthy db → uid ≠ userId m →
  healthy (deleteMessage e s mid ss db).1
  ∧ messages (deleteMessage e s mid ss db).1 = messages db
  ∧ (deleteMessage e s mid ss db).2
    = [(s, chatError (js "You can only delete your own messages"))].
Proof.
  intros Hs Hu Hm Hh Hne. unfold deleteMessage. rewrite Hs, Hu.
  destruct (findById_healthy mid db Hh) as (E1 & Hh1 & E2).
  destruct (findById mid db) as [r1 db1]; simpl in *; subst r1. rewrite Hm.
  rewrite bool_decide_eq_false_2 by congruence. done.
Qed.

Lemma deleteMessage_own e s mid ss db so m :
  ss !! s = Some so → s_userId so = Some (userId m) → messages db !! mid = Some m →
  healthy db →
  healthy (deleteMessage e s mid ss db).1
  ∧ messages (deleteMessage e s mid ss db).1
    = <[mid := set_updatedAt (now e) (set_deleted (now e) m)]> (messages db)
  ∧ (deleteMessage e s mid ss db).2
    = io_to ss (room_of (asteroidId m)) (messageDeleted mid (s_username so)).
Proof.
  intros Hs Hu Hm Hh. unfold deleteMessage. rewrite Hs, Hu.
  destruct (findById_healthy mid db Hh) as (E1 & Hh1 & E2).
  destruct (findById mid db) as [r1 db1]; simpl in *; subst r1. rewrite Hm.
  rewrite bool_decide_eq_true_2 by done. simpl.
  match goal with |- context[save ?t ?i ?x db1] =>
    destruct (save_healthy t i x db1 Hh1) as (E3 & Hh2 & E4);
    destruct (save t i x db1) as [r2 db2] end.
  simpl in *; subst r2; simpl. by rewrite E4, E2.
Qed.

Lemma delete_message_other e u mid db m :
  messages db !! mid = Some m → healthy db → u_id u ≠ userId m →
  healthy (delete_message e u mid db).1
  ∧ messages (delete_message e u mid db).1 = messages db
  ∧ (delete_message e u mid db).2
    = mkResponse 403 (failure (js "You can only delete your own messages")).
Proof.
  intros Hm Hh Hne. unfold delete_message.
  destruct (findById_healthy mid db Hh) as (E1 & Hh1 & E2).
  destruct (findById mid db) as [r1 db1]; simpl in *; subst r1. rewrite Hm.
  rewrite bool_decide_eq_false_2 by congruence. done.
Qed.

Lemma delete_message_own e u mid db m :
  messages db !! mid = Some m → healthy db → u_id u = userId m →
  healthy (delete_message e u mid db).1
  ∧ messages (delete_message e u mid db).1
    = <[mid := set_updatedAt (now e) (set_deleted (now e) m)]> (messages db)
  ∧ (delete_message e u mid db).2
    = mkResponse 200 (succeeded (js "Message deleted successfully")).
Proof.
  intros Hm Hh Hu. unfold delete_message.
  destruct (findById_healthy mid db Hh) as (E1 & Hh1 & E2).
  destruct (findById mid db) as [r1 db1]; simpl in *; subst r1. rewrite Hm.
  rewrite bool_decide_eq_true_2 by done. simpl.
  match goal with |- context[save ?t ?i ?x db1] =>
    destruct (save_healthy t i x db1 Hh1) as (E3 & Hh2 & E4);
    destruct (save t i x db1) as [r2 db2] end.
  simpl in *; subst r2; simpl. by rewrite E4, E2.
Qed.

(** C4.  For an authenticated requester and a stored message, with the
    store serving its round trips: a requester who is not the author gets
    the permission error (socket: the [chatError] 'You can only delete your
    own messages' to that socket alone; REST: status 403) and the
    collection is left as it was, whether or not the message is already
    flagged as deleted, for no check of the flag is made; the author's
    request sets the flag and the deletion time, again whatever the flag
    was, so that a second request of the author succeeds like the first
    and leaves the flag set. *)
Theorem delete_owner_only
    (e e' : Env) (s : sid) (mid : oid) (ss : sockets) (db : Db)
    (so : Socket) (uid : oid) (m : ChatMessage)
    (Hs : ss !! s = Some so) (Hu : s_userId so = Some uid)
    (Hm : messages db !! mid = Some m) (Hh : healthy db) :
  (uid ≠ userId m →
     messages (deleteMessage e s mid ss db).1 = messages db
     ∧ (deleteMessage e s mid ss db).2
       = [(s, chatError (js "You can only delete your own messages"))])
  ∧ (uid = userId m →
     let db1 := (deleteMessage e s mid ss db).1 in
     let db2 := (deleteMessage e' s mid ss db1).1 in
     ∃ m1 m2,
       messages db1 = <[mid := m1]> (messages db)
       ∧ deleted m1 = true ∧ deletedAt m1 = Some (now e)
       ∧ (deleteMessage e s mid ss db).2
         = io_to ss (room_of (asteroidId m)) (messageDeleted mid (s_username so))
       ∧ messages db2 = <[mid := m2]> (messages db)
       ∧ deleted m2 = true
       ∧ (deleteMessage e' s mid ss db1).2
         = io_to ss (room_of (asteroidId m)) (messageDeleted mid (s_username so)))
  ∧ (∀ u, u_id u ≠ userId m →
       messages (delete_message e u mid db).1 = messages db
       ∧ (delete_message e u mid db).2
         = mkResponse 403 (failure (js "You can only delete your own messages")))
  ∧ (∀ u, u_id u = userId m →
       let db1 := (delete_message e u mid db).1 in
       ∃ m1 m2,
         messages db1 = <[mid := m1]> (messages db)
         ∧ deleted m1 = true ∧ deletedAt m1 = Some (now e)
         ∧ (delete_message e u mid db).2
           = mkResponse 200 (succeeded (js "Message deleted successfully"))
         ∧ messages (delete_message e' u mid db1).1 = <[mid := m2]> (messages db)
         ∧ deleted m2 = true
         ∧ (delete_message e' u mid db1).2
           = mkResponse 200 (succeeded (js "Message deleted successfully"))).
Proof.
  split_and!.
  - intros Hne. by destruct (deleteMessage_other e s mid ss db so uid m) as (_ & ? & ?).
  - intros -> db1 db2.
    destruct (deleteMessage_own e s mid ss db so m) as (Hh1 & E1 & O1); try done.
    set (m1 := set_updatedAt (now e) (set_deleted (now e) m)) in *.
    assert (Hm1 : messages db1 !! mid = Some m1)
      by (unfold db1; rewrite E1; apply lookup_insert_eq).
    destruct (deleteMessage_own e' s mid ss db1 so m1) as (_ & E2 & O2); try done.
    exists m1, (set_updatedAt (now e') (set_deleted (now e') m1)).
    split_and!; try done.
    unfold db2. rewrite E2. unfold db1. rewrite E1. apply insert_insert_eq.
  - intros u Hne. by destruct (delete_message_other e u mid db m) as (_ & ? & ?).
  - intros u Heq db1.
    destruct (delete_message_own e u mid db m) as (Hh1 & E1 & O1); try done.
    set (m1 := set_updatedAt (now e) (set_deleted (now e) m)) in *.
    assert (Hm1 : messages db1 !! mid = Some m1)
      by (unfold db1; rewrite E1; apply lookup_insert_eq).
    destruct (delete_message_own e' u mid db1 m1) as (_ & E2 & O2); try done.
    exists m1, (set_updatedAt (now e') (set_deleted (now e') m1)).
    split_and!; try done.
    rewrite E2. unfold db1. rewrite E1. apply insert_insert_eq.
Qed.

End deleting.

Section deleting_example.
Import Scenario.

Lemma delete_owner_only_witness :
  let st := (run both_joined (boot one_message)).1 in
  (∃ so, socks st !! sB = Some so ∧ s_userId so = Some 2%N)
  ∧ messages (store st) !! 7%N = Some (hello 100)
  ∧ messages (deleteMessage (at_ 5 500) sB 7 (socks st) (store st)).1 = messages (store st)
  ∧ (deleteMessage (at_ 5 500) sB 7 (socks st) (store st)).2
    = [(sB, chatError (js "You can only delete your own messages"))].
Proof.
  intros st.
  assert (Hs : ∃ so, socks st !! sB = Some so ∧ s_userId so = Some 2%N).
  { eexists. split; [vm_compute; reflexivity|reflexivity]. }
  assert (Hm : messages (store st) !! 7%N = Some (hello 100)) by (vm_compute; reflexivity).
  assert (Hh : healthy (store st)) by (vm_compute; constructor).
  split; [exact Hs|]. split; [exact Hm|].
  destruct Hs as (so & Hs & Hu).
  apply (proj1 (delete_owner_only (at_ 5 500) (at_ 6 501) sB 7%N (socks st) (store st)
                  so 2%N (hello 100) Hs Hu Hm Hh)).
  by vm_compute.
Defined.

End deleting_example.

(** ** Store failures *)

Section failures.











End failures.

Section failures_example.
Import Scenario.



End failures_example.

(** ** Rooms *)

Section rooms.

Lemma elem_of_members (ss : sockets) room t :
  t ∈ members ss room ↔ ∃ so, ss !! t = Some so ∧ room ∈ s_rooms so.
Proof.
  unfold members. rewrite elem_of_dom. unfold is_Some.
  setoid_rewrite map_lookup_filter_Some. simpl. naive_solver.
Qed.

Lemma elem_of_io_to (ss : sockets) room ev t ev' :
  (t, ev') ∈ io_to ss room ev ↔ ev' = ev ∧ t ∈ members ss room.
Proof.
  unfold io_to. rewrite list_elem_of_fmap. setoid_rewrite elem_of_elements.
  naive_solver.
Qed.

Lemma elem_of_socket_to (ss : sockets) s room ev t ev' :
  (t, ev') ∈ socket_to ss s room ev ↔ ev' = ev ∧ t ∈ members ss room ∧ t ≠ s.
Proof.
  unfold socket_to. rewrite list_elem_of_fmap. setoid_rewrite elem_of_elements.
  setoid_rewrite elem_of_difference. setoid_rewrite elem_of_singleton.
  naive_solver.
Qed.

Lemma startsWith_app p s : startsWith p (p ++ s) = true.
Proof.
  induction p as [|a p IH]; [done|]. simpl. by rewrite N.eqb_refl, IH.
Qed.

Lemma room_of_asteroid aid : startsWith (js "asteroid:") (room_of aid).
Proof. unfold room_of. by rewrite startsWith_app. Qed.

(** The rooms a socket is in after [joinAsteroid]. *)
Lemma kept_asteroid (roomName room : jsstring) (rooms : gset jsstring) :
  room ∈ filter (λ r : jsstring, ¬ is_left roomName r) rooms →
  startsWith (js "asteroid:") room → room = roomName.
Proof.
  intros [Hk _]%elem_of_filter Hp. unfold is_left in Hk.
  destruct (startsWith (js "asteroid:") room); [|done]. simpl in Hk.
  case_bool_decide; [done|]. by destruct Hk.
Qed.

Lemma connection_single_room s who ss :
  single_room ss → single_room (connection s who ss).
Proof.
  intros H. unfold connection. destruct (ss !! s) eqn:E; [done|].
  intros t so'. rewrite lookup_insert. case_decide as Ht; [|apply H].
  intros [= <-]. destruct who; simpl; split; try done.
  all: by intros r1 r2 ->%elem_of_singleton ->%elem_of_singleton.
Qed.

Lemma joinAsteroid_single_room s aid ss db :
  single_room ss → single_room (joinAsteroid s aid ss db).1.1.
Proof.
  intros H. unfold joinAsteroid. destruct (ss !! s) as [so|] eqn:E; [|done].
  destruct (getChatHistory aid (Some 50) None db) as [r db']. cbn [fst snd].
  intros t so'. rewrite lookup_insert. case_decide as Ht; [|apply H].
  intros [= <-]. cbn [s_rooms s_currentRoom].
  assert (Hone : ∀ r0 : jsstring,
             r0 ∈ ({[room_of aid]} ∪ filter (λ r1 : jsstring, ¬ is_left (room_of aid) r1)
                      (s_rooms so) : gset jsstring) →
             startsWith (js "asteroid:") r0 → r0 = room_of aid).
  { intros r0 Hr0 Hp. apply elem_of_union in Hr0 as [Hr0|Hk].
    - by apply elem_of_singleton in Hr0.
    - exact (kept_asteroid _ _ _ Hk Hp). }
  split.
  - intros r1 r2 H1 H2 P1 P2.
    transitivity (room_of aid); [by apply Hone|symmetry; by apply Hone].
  - intros r0 [= <-]. split; [|apply room_of_asteroid].
    apply elem_of_union. left. by apply elem_of_singleton.
Qed.

Lemma leaveAsteroid_single_room s ss :
  single_room ss → single_room (leaveAsteroid s ss).1.
Proof.
  intros H. unfold leaveAsteroid. destruct (ss !! s) as [so|] eqn:E; [|done].
  destruct (s_currentRoom so) as [room|]; [|done]. simpl.
  intros t so'. rewrite lookup_insert. case_decide as Ht; [|apply H].
  intros [= <-]. simpl. split; [|done].
  intros r1 r2 [H1 _]%elem_of_difference [H2 _]%elem_of_difference.
  by apply (H s so E).
Qed.

Lemma disconnect_single_room s ss :
  single_room ss → single_room (disconnect s ss).1.
Proof.
  intros H. unfold disconnect. destruct (ss !! s) as [so|] eqn:E; [|done].
  assert (single_room (delete s ss)).
  { intros t so'. rewrite lookup_delete. case_decide; [done|apply H]. }
  by destruct (s_currentRoom so).
Qed.

Lemma step_single_room e i st :
  single_room (socks st) → single_room (socks (step e i st).1).
Proof.
  intros H. destruct i; simpl; try done.
  - by apply connection_single_room.
  - pose proof (joinAsteroid_single_room s aid (socks st) (store st) H).
    by destruct (joinAsteroid _ _ _ _) as [[? ?] ?].
  - pose proof (leaveAsteroid_single_room s (socks st) H).
    by destruct (leaveAsteroid _ _).
  - by destruct (sendMessage _ _ _ _ _).
  - by destruct (addReaction _ _ _ _ _ _).
  - by destruct (deleteMessage _ _ _ _ _).
  - pose proof (disconnect_single_room s (socks st) H).
    by destruct (disconnect _ _).
  - by destruct (get_messages _ _ _ _).
  - by destruct (post_message _ _ _ _ _ _).
  - by destruct (delete_message _ _ _ _).
  - by destruct (get_count _ _).
  - by destruct (post_reaction _ _ _ _ _).
Qed.

(** Every state the server reaches keeps sockets in at most one asteroid
    room. *)
Lemma run_single_room tr st :
  single_room (socks st) → single_room (socks (run tr st).1).
Proof.
  revert st. induction tr as [|[e i] tr IH]; intros st H; [done|].
  rewrite run_cons. simpl. by apply IH, step_single_room.
Qed.

Lemma boot_single_room db : single_room (socks (boot db)).
Proof. intros s so. simpl. by rewrite lookup_empty. Qed.

End rooms.

(** ** Presence *)

Section presence.

(** The count a join broadcasts is the size of the room as the join left
    it, and goes to the members of that room. *)
Lemma joinAsteroid_count s aid ss db t n :
  (t, activeUsers n) ∈ (joinAsteroid s aid ss db).2 →
  n = size (members (joinAsteroid s aid ss db).1.1 (room_of aid))
  ∧ t ∈ members (joinAsteroid s aid ss db).1.1 (room_of aid).
Proof.
  unfold joinAsteroid. destruct (ss !! s) as [so|]; simpl; [|by intros ?%elem_of_nil].
  destruct (getChatHistory aid (Some 50) None db) as [r db']. simpl.
  intros H. apply elem_of_app in H as [H|H].
  { destruct r; by apply list_elem_of_singleton in H. }
  apply elem_of_app in H as [H|H].
  - by apply elem_of_socket_to in H as [[=] _].
  - by apply elem_of_io_to in H as [[= ->] ?].
Qed.

(** So is the count a disconnect broadcasts. *)
Lemma disconnect_count s ss so room t n :
  ss !! s = Some so → s_currentRoom so = Some room →
  (t, activeUsers n) ∈ (disconnect s ss).2 →
  n = size (members (disconnect s ss).1 room)
  ∧ t ∈ members (disconnect s ss).1 room.
Proof.
  intros Hs Hc. unfold disconnect. rewrite Hs, Hc. simpl.
  intros H. apply elem_of_app in H as [H|H].
  - by apply elem_of_socket_to in H as [[=] _].
  - by apply elem_of_io_to in H as [[= ->] ?].
Qed.

Lemma leaveAsteroid_members s ss so room :
  ss !! s = Some so → s_currentRoom so = Some room → room ∈ s_rooms so →
  (s ∉ members (leaveAsteroid s ss).1 room)
  ∧ members ss room = {[s]} ∪ members (leaveAsteroid s ss).1 room.
Proof.
  intros Hs Hc Hin. unfold leaveAsteroid. rewrite Hs, Hc. simpl. split.
  - rewrite elem_of_members, lookup_insert_eq. intros (so' & [= <-] & H). simpl in H.
    apply elem_of_difference in H as [_ H]. by apply H, elem_of_singleton.
  - apply set_eq. intros t.
    rewrite elem_of_union, elem_of_singleton, !elem_of_members.
    destruct (decide (t = s)) as [->|Hne].
    + split; [by left|]. intros _. by exists so.
    + rewrite lookup_insert_ne by done. naive_solver.
Qed.

(** The count a leave broadcasts still includes the leaver: it is one more
    than the size of the room as the leave left it. *)
Lemma leaveAsteroid_count s ss so room t n :
  ss !! s = Some so → s_currentRoom so = Some room → room ∈ s_rooms so →
  (t, activeUsers n) ∈ (leaveAsteroid s ss).2 →
  n = S (size (members (leaveAsteroid s ss).1 room)).
Proof.
  intros Hs Hc Hin H.
  destruct (leaveAsteroid_members s ss so room Hs Hc Hin) as [Hnot Heq].
  assert (n = size (members ss room)) as ->.
  { unfold leaveAsteroid in H. rewrite Hs, Hc in H. simpl in H.
    apply elem_of_app in H as [H|H].
    - by apply elem_of_socket_to in H as [[=] _].
    - by apply elem_of_io_to in H as [[= ->] ?]. }
  rewrite Heq, size_union, size_singleton; [done|].
  intros x ->%elem_of_singleton. exact Hnot.
Qed.

(** C10.  In every state the server reaches, when a socket whose current
    room is [old] joins another topic, the socket is out of [old]
    afterwards, the other members of [old] are who they were, and none of
    them is delivered any event of the join: no [userLeft], no
    [activeUsers], nothing. *)
Theorem switch_is_silent_for_old_room
    (db0 : Db) (tr : list (Env * input)) (s : sid) (aid : jsstring)
    (so : Socket) (old : jsstring)
    (Hs : socks (run tr (boot db0)).1 !! s = Some so)
    (Hc : s_currentRoom so = Some old)
    (Hne : room_of aid ≠ old) :
  let st := (run tr (boot db0)).1 in
  let r := joinAsteroid s aid (socks st) (store st) in
  (s ∉ members (r.1.1) old)
  ∧ (∀ t, t ≠ s → (t ∈ members (r.1.1) old ↔ t ∈ members (socks st) old))
  ∧ (∀ t ev, t ∈ members (r.1.1) old → (t, ev) ∉ r.2).
Proof.
  intros st r.
  pose proof (run_single_room tr (boot db0) (boot_single_room db0)) as Hinv.
  fold st in Hinv, Hs. destruct (Hinv s so Hs) as [_ Hcur].
  destruct (Hcur old Hc) as [Hold Hpre].
  unfold r, joinAsteroid. rewrite Hs.
  destruct (getChatHistory aid (Some 50) None (store st)) as [h db']. cbn [fst snd].
  set (so' := mkSocket _ _ _ _ _ _). set (ss' := <[s := so']> (socks st)).
  assert (Hout : s ∉ members ss' old).
  { rewrite elem_of_members. unfold ss'. rewrite lookup_insert_eq.
    intros (x & [= <-] & Hx). simpl in Hx.
    apply elem_of_union in Hx as [Hx|Hx].
    - apply elem_of_singleton in Hx. congruence.
    - apply Hne. symmetry. exact (kept_asteroid _ _ _ Hx Hpre). }
  assert (Hsame : ∀ t, t ≠ s → (t ∈ members ss' old ↔ t ∈ members (socks st) old)).
  { intros t Ht. rewrite !elem_of_members. unfold ss'. by rewrite lookup_insert_ne. }
  split_and!; [done|done|].
  intros t ev Ht Hev.
  assert (Hts : t ≠ s) by (intros ->; done).
  assert (Hnew : t ∉ members ss' (room_of aid)).
  { intros Hn. apply Hne.
    apply elem_of_members in Ht as (x & Hx & Hxo).
    apply elem_of_members in Hn as (y & Hy & Hyn).
    unfold ss' in Hx, Hy. rewrite lookup_insert_ne in Hx, Hy by done. simplify_eq.
    destruct (Hinv t x Hx) as [Hone _].
    apply Hone; [done|done|apply room_of_asteroid|done]. }
  apply elem_of_app in Hev as [Hev|Hev].
  { destruct h; apply list_elem_of_singleton in Hev; congruence. }
  apply elem_of_app in Hev as [Hev|Hev].
  - apply elem_of_socket_to in Hev as (_ & ? & _). done.
  - apply elem_of_io_to in Hev as (_ & ?). done.
Qed.

End presence.

Section presence_example.
Import Scenario.

Lemma switch_is_silent_for_old_room_witness :
  let st := (run both_joined (boot empty_db)).1 in
  let r := joinAsteroid sA other_topic (socks st) (store st) in
  sB ∈ members (r.1.1) (room_of topic)
  ∧ (sA ∉ members (r.1.1) (room_of topic))
  ∧ (∀ t, t ≠ sA →
       (t ∈ members (r.1.1) (room_of topic) ↔ t ∈ members (socks st) (room_of topic)))
  ∧ (∀ t ev, t ∈ members (r.1.1) (room_of topic) → (t, ev) ∉ r.2).
Proof.
  intros st r. split.
  - apply elem_of_members. eexists. split; [vm_compute; reflexivity|].
    by vm_compute.
  - eapply (switch_is_silent_for_old_room empty_db both_joined sA other_topic _
              (room_of topic)).
    + vm_compute. reflexivity.
    + reflexivity.
    + by vm_compute.
Defined.

(** C2 at its failing input.  Alice and Bob have joined the topic's room;
    Alice leaves.  The [activeUsers] event of the leave, which Bob
    receives, counts 2, the size of the room before Alice is taken out;
    after the two joins and the one leave the room has 1 member. *)
Lemma leave_reports_stale_count :
  let st := (run both_joined (boot empty_db)).1 in
  let r := leaveAsteroid sA (socks st) in
  size (members (socks st) (room_of topic)) = 2%nat
  ∧ (sB, activeUsers 2) ∈ r.2
  ∧ size (members (r.1) (room_of topic)) = 1%nat.
Proof.
  intros st r. split_and!; [by vm_compute| |by vm_compute].
  apply elem_of_app. right. apply elem_of_io_to. split; [by vm_compute|].
  apply elem_of_members. eexists. split; [vm_compute; reflexivity|by vm_compute].
Qed.

End presence_example.

(** ** Typing *)

Section typing_events.

(** What a send puts out: the new message, or an error to the sender. *)
Lemma sendMessage_events e s d ss db t ev :
  (t, ev) ∈ (sendMessage e s d ss db).2 →
  (∃ id m, ev = newMessage id m) ∨ (t = s ∧ ∃ reason, ev = chatError reason).
Proof.
  unfold sendMessage, socket_emit. intros H.
  repeat case_match; simplify_eq; simpl in H;
    try (by apply elem_of_nil in H);
    try (apply list_elem_of_singleton in H as [= -> ->]; right; by eauto).
  apply elem_of_io_to in H as [-> _]. left. by eauto.
Qed.

Lemma socket_to_NoDup (ss : sockets) s room ev : NoDup (socket_to ss s room ev).
Proof.
  unfold socket_to. apply NoDup_fmap_2; [|apply NoDup_elements].
  by intros x y [=].
Qed.

(** C9, as the code has it.  For a socket in a room: when it is
    authenticated, its [typing] and [stopTyping] events are delivered, once
    each, to every other member of the room and to no one else; when it is
    anonymous, they are delivered to no one.  A send is never answered with
    a stopped-typing event: it puts out the new message, or an error to the
    sender, and nothing else. *)
Theorem typing_fanout
    (e : Env) (s : sid) (ss : sockets) (db : Db) (so : Socket) (room : jsstring)
    (Hs : ss !! s = Some so) (Hc : s_currentRoom so = Some room) :
  (∀ uid, s_userId so = Some uid →
     NoDup (typing s ss) ∧ NoDup (stopTyping s ss)
     ∧ (∀ t ev, (t, ev) ∈ typing s ss ↔
          ev = userTyping (s_username so) (s_currentAsteroid so)
          ∧ t ∈ members ss room ∧ t ≠ s)
     ∧ (∀ t ev, (t, ev) ∈ stopTyping s ss ↔
          ev = userStoppedTyping (s_username so) (s_currentAsteroid so)
          ∧ t ∈ members ss room ∧ t ≠ s))
  ∧ (s_userId so = None → typing s ss = [] ∧ stopTyping s ss = [])
  ∧ (∀ d t ev, (t, ev) ∈ (sendMessage e s d ss db).2 →
       (∃ id m, ev = newMessage id m) ∨ (t = s ∧ ∃ reason, ev = chatError reason)).
Proof.
  unfold typing, stopTyping. rewrite Hs, Hc. split_and!.
  - intros uid ->. split_and!; try apply socket_to_NoDup.
    + intros t ev. apply elem_of_socket_to.
    + intros t ev. apply elem_of_socket_to.
  - by intros ->.
  - intros d t ev. apply sendMessage_events.
Qed.

End typing_events.

Section typing_example.
Import Scenario.

Lemma typing_fanout_witness :
  let st := (run both_joined (boot empty_db)).1 in
  NoDup (typing sA (socks st)) ∧ NoDup (stopTyping sA (socks st))
  ∧ (∀ t ev, (t, ev) ∈ typing sA (socks st) ↔
       ev = userTyping (js "alice") (Some topic)
       ∧ t ∈ members (socks st) (room_of topic) ∧ t ≠ sA)
  ∧ (∀ t ev, (t, ev) ∈ stopTyping sA (socks st) ↔
       ev = userStoppedTyping (js "alice") (Some topic)
       ∧ t ∈ members (socks st) (room_of topic) ∧ t ≠ sA).
Proof.
  intros st.
  assert (Hs : socks st !! sA = Some alice_in_topic) by (vm_compute; reflexivity).
  exact (proj1 (typing_fanout (at_ 5 500) sA (socks st) (store st) alice_in_topic
                  (room_of topic) Hs eq_refl) 1%N eq_refl).
Defined.

(** A guest in the room types, and Bob, the other member, is told nothing;
    Bob sends a message, and the guest is sent the message but no
    stopped-typing event. *)
Lemma guest_typing_counterexample :
  let st := (run guest_and_bob (boot empty_db)).1 in
  let d := mkSendData (Some topic) (Some (js "3542519")) None (Some (js "hello")) None in
  let out := (sendMessage (at_ 5 500) sB d (socks st) (store st)).2 in
  (∃ so, socks st !! sG = Some so ∧ s_currentRoom so = Some (room_of topic))
  ∧ sB ∈ members (socks st) (room_of topic) ∧ sB ≠ sG
  ∧ typing sG (socks st) = []
  ∧ (∃ m, (sG, newMessage 500%N m) ∈ out)
  ∧ ∀ t name aid, (t, userStoppedTyping name aid) ∉ out.
Proof.
  intros st d out.
  assert (Hs : socks st !! sB = Some bob_in_topic) by (vm_compute; reflexivity).
  assert (Hout : out = io_to (socks st) (room_of topic)
                         (newMessage 500%N
                            (mkChatMessage topic (js "3542519") (js "Unknown") 2%N
                               (js "bob") None (js "hello") text None [] false None
                               false None 5 5))).
  { refine (proj2 (sendMessage_accepts (at_ 5 500) sB d (socks st) (store st)
                      bob_in_topic 2%N (js "hello") topic (js "3542519")
                      Hs eq_refl _ eq_refl eq_refl _ _)).
    - split; [reflexivity|]. split; [by vm_compute|vm_compute; lia].
    - vm_compute. constructor.
    - vm_compute. reflexivity. }
  split_and!.
  - eexists. split; [vm_compute; reflexivity|reflexivity].
  - apply elem_of_members. eexists. split; [exact Hs|by vm_compute].
  - by vm_compute.
  - by vm_compute.
  - eexists. rewrite Hout. apply elem_of_io_to. split; [reflexivity|].
    apply elem_of_members. eexists. split; [vm_compute; reflexivity|by vm_compute].
  - intros t name aid H. unfold out in H.
    apply sendMessage_events in H as [(? & ? & [=])|(_ & ? & [=])].
Qed.

End typing_example.

(** ** Reactions without an emoji *)

Section missing_emoji.
Import Scenario.

(** The REST route turns a reaction without an emoji down. *)
Lemma post_reaction_missing_emoji e u mid emoji db :
  falsy emoji = true →
  post_reaction e u mid emoji db = (db, mkResponse 400 (failure (js "Emoji is required"))).
Proof. intros H. unfold post_reaction. by rewrite H. Qed.

(** C8 at its failing input.  Over the socket, Alice reacts to the stored
    message without an emoji: the reaction is stored with no emoji and
    broadcast to the room, and no [chatError] is emitted; the same request
    over REST is answered 400 'Emoji is required' and stores nothing. *)
Lemma reaction_without_emoji_stored :
  let st := (run both_joined (boot one_message)).1 in
  let r := addReaction (at_ 10 200) sA 7%N None (socks st) (store st) in
  (∃ m, messages r.1 !! 7%N = Some m ∧ reactions m = [mkReaction None 1%N 10])
  ∧ (sB, reactionUpdated 7%N [mkReaction None 1%N 10]) ∈ r.2
  ∧ (∀ t reason, (t, chatError reason) ∉ r.2)
  ∧ post_reaction (at_ 10 200) alice 7%N None (store st)
    = (store st, mkResponse 400 (failure (js "Emoji is required"))).
Proof.
  intros st r.
  assert (Hh : healthy (store st)) by (vm_compute; constructor).
  assert (Hs : socks st !! sA = Some alice_in_topic) by (vm_compute; reflexivity).
  assert (Hm : messages (store st) !! 7%N = Some (hello 100)) by (vm_compute; reflexivity).
  pose proof (addReaction_healthy (at_ 10 200) sA 7%N None (socks st) (store st)
                alice_in_topic 1%N (hello 100) Hh Hs eq_refl Hm) as HH.
  destruct HH as (_ & E1 & E2). unfold r. split_and!.
  - exists (set_updatedAt 10 (set_reactions (setReaction 1%N None 10 []) (hello 100))).
    split; [rewrite E1; apply lookup_insert_eq|reflexivity].
  - rewrite E2. apply elem_of_io_to. split; [reflexivity|].
    apply elem_of_members. eexists. split; [vm_compute; reflexivity|by vm_compute].
  - intros t reason. rewrite E2. by intros [[=] _]%elem_of_io_to.
  - by apply post_reaction_missing_emoji.
Qed.

End missing_emoji.

(** ** Trimming *)

Section trimming.

Lemma length_trimStart s : (length (trimStart s) ≤ length s)%nat.
Proof.
  induction s as [|c s IH]; simpl; [done|]. destruct (is_ws c); simpl; lia.
Qed.

Lemma length_trim s : (length (trim s) ≤ length s)%nat.
Proof.
  unfold trim, trimEnd. rewrite length_rev.
  etrans; [apply length_trimStart|]. rewrite length_rev. apply length_trimStart.
Qed.

Lemma trimStart_idem s : trimStart (trimStart s) = trimStart s.
Proof.
  induction s as [|c s IH]; simpl; [done|].
  destruct (is_ws c) eqn:E; [done|]. simpl. by rewrite E.
Qed.

Lemma trimStart_app l k :
  trimStart (l ++ k) = match trimStart l with
                       | [] => trimStart k
                       | _ :: _ => trimStart l ++ k
                       end.
Proof.
  induction l as [|c l IH]; simpl; [done|]. by destruct (is_ws c).
Qed.

(** [trimEnd] read from the front of the string. *)
Lemma trimEnd_cons c s :
  trimEnd (c :: s) = match trimEnd s with
                     | [] => if is_ws c then [] else [c]
                     | _ :: _ => c :: trimEnd s
                     end.
Proof.
  unfold trimEnd. simpl. rewrite trimStart_app.
  destruct (trimStart (rev s)) as [|d t] eqn:E; simpl.
  - by destruct (is_ws c).
  - rewrite rev_app_distr. simpl.
    destruct (rev t ++ [d]) eqn:E'; [by destruct (rev t)|done].
Qed.

Lemma trimEnd_idem s : trimEnd (trimEnd s) = trimEnd s.
Proof. unfold trimEnd. by rewrite rev_involutive, trimStart_idem. Qed.

Lemma trimStart_trimEnd s :
  trimStart s = s → trimStart (trimEnd s) = trimEnd s.
Proof.
  destruct s as [|c s]; [done|]. simpl. destruct (is_ws c) eqn:E.
  - intros H. pose proof (length_trimStart s) as Hl. rewrite H in Hl. simpl in Hl. lia.
  - intros _. rewrite trimEnd_cons, E.
    destruct (trimEnd s); simpl; by rewrite E.
Qed.

Lemma trim_idem s : trim (trim s) = trim s.
Proof.
  unfold trim. rewrite (trimStart_trimEnd (trimStart s)) by apply trimStart_idem.
  apply trimEnd_idem.
Qed.

(** A body that passed the handlers' checks is stored valid. *)
Lemma body_ok_valid msg b : body_ok msg b → body_valid (trim b).
Proof.
  intros (_ & Hne & Hl). split; [apply trim_idem|]. split; [done|].
  pose proof (length_trim b). lia.
Qed.

End trimming.

(** ** Writes *)

Ltac spec_of_call :=
  match goal with
  | H : save_new ?i ?m ?db = _ |- _ =>
      destruct (save_new_spec i m db) as [[? ?]|(?&?&?)]; rewrite H in *; clear H
  | H : save ?t ?i ?m ?db = _ |- _ =>
      destruct (save_spec t i m db) as [[? ?]|[? ?]]; rewrite H in *; clear H
  | H : findById ?i ?db = _ |- _ =>
      destruct (findById_spec i db) as [? [?|?]]; rewrite H in *; clear H
  | H : find_query ?a ?n ?b ?db = _ |- _ =>
      pose proof (find_query_messages a n b db); rewrite H in *; clear H
  | H : roundtrip ?db = _ |- _ =>
      pose proof (roundtrip_messages db); rewrite H in *; clear H
  end; simpl in *; simplify_eq.

Ltac by_cases :=
  repeat case_match; simpl; try (by constructor);
  repeat spec_of_call;
  repeat match goal with H : messages _ = _ |- _ => rewrite H end;
  try (by constructor).

Section writes.

Lemma checks_body_ok msg b :
  truthy msg = Some b →
  bool_decide (length (trim b) = 0%nat) = false →
  bool_decide (2000 < length b)%nat = false →
  body_ok msg b.
Proof. intros. by apply body_ok_checks. Qed.

Lemma sendMessage_write e s d ss db :
  write e (messages db) (messages (sendMessage e s d ss db).1).
Proof.
  unfold sendMessage. by_cases.
  apply w_new; try done. simpl. eapply body_ok_valid, checks_body_ok; done.
Qed.

Lemma post_message_write e u aid msg reply db :
  write e (messages db) (messages (post_message e u aid msg reply db).1).
Proof.
  unfold post_message, Asteroid_findById. by_cases.
  all: match goal with
       | H : messages _ = messages ?x |- write _ (messages ?x) _ => rewrite <- H
       end.
  all: apply w_new; try done; simpl; eapply body_ok_valid, checks_body_ok; done.
Qed.

Lemma addReaction_write e s mid emoji ss db :
  write e (messages db) (messages (addReaction e s mid emoji ss db).1).
Proof. unfold addReaction. by_cases. eapply w_upd; [done|]. apply ds_react. Qed.

Lemma deleteMessage_write e s mid ss db :
  write e (messages db) (messages (deleteMessage e s mid ss db).1).
Proof. unfold deleteMessage. by_cases. eapply w_upd; [done|]. apply ds_delete. Qed.

Lemma delete_message_write e u mid db :
  write e (messages db) (messages (delete_message e u mid db).1).
Proof. unfold delete_message. by_cases. eapply w_upd; [done|]. apply ds_delete. Qed.

Lemma post_reaction_write e u mid emoji db :
  write e (messages db) (messages (post_reaction e u mid emoji db).1).
Proof. unfold post_reaction. by_cases. eapply w_upd; [done|]. apply ds_react. Qed.

Lemma step_write e i st :
  write e (messages (store st)) (messages (store (step e i st).1)).
Proof.
  destruct i; simpl; try constructor.
  - pose proof (joinAsteroid_msgs s aid (socks st) (store st)) as H.
    destruct (joinAsteroid _ _ _ _) as [[ss db] out]; simpl in *. rewrite H. constructor.
  - destruct (leaveAsteroid _ _); constructor.
  - pose proof (sendMessage_write e s d (socks st) (store st)) as H.
    by destruct (sendMessage _ _ _ _ _).
  - pose proof (addReaction_write e s messageId emoji (socks st) (store st)) as H.
    by destruct (addReaction _ _ _ _ _ _).
  - pose proof (deleteMessage_write e s messageId (socks st) (store st)) as H.
    by destruct (deleteMessage _ _ _ _ _).
  - destruct (disconnect _ _); constructor.
  - pose proof (get_messages_msgs aid lim before (store st)) as H.
    destruct (get_messages _ _ _ _); simpl in *. rewrite H. constructor.
  - pose proof (post_message_write e u aid msg reply (store st)) as H.
    by destruct (post_message _ _ _ _ _ _).
  - pose proof (delete_message_write e u messageId (store st)) as H.
    by destruct (delete_message _ _ _ _).
  - pose proof (get_count_msgs aid (store st)) as H.
    destruct (get_count _ _); simpl in *. rewrite H. constructor.
  - pose proof (post_reaction_write e u messageId emoji (store st)) as H.
    by destruct (post_reaction _ _ _ _ _).
Qed.

Lemma doc_step_same_content m m' : doc_step m m' → same_content m m'.
Proof. intros []; by repeat split. Qed.

Lemma same_content_refl m : same_content m m.
Proof. by repeat split. Qed.

Lemma same_content_trans m1 m2 m3 :
  same_content m1 m2 → same_content m2 m3 → same_content m1 m3.
Proof.
  unfold same_content. intros H1 H2. destruct_and!. split_and!; congruence.
Qed.

(** X1.  No handler removes a stored message or edits it: after any run of
    the server a message that was stored is still stored under its id, with
    the same topic, author, names, body, type, reply target, edit marks and
    creation time; and if it was flagged as deleted it still is (there is
    no undelete).  Only its reactions, its deletion mark and [updatedAt]
    can differ. *)
Theorem stored_message_is_permanent
    (st : State) (tr : list (Env * input)) (id : oid) (m : ChatMessage)
    (Hm : messages (store st) !! id = Some m) :
  ∃ m', messages (store (run tr st).1) !! id = Some m'
        ∧ same_content m m'
        ∧ (deleted m = true → deleted m' = true).
Proof.
  apply (run_msgs_inv
           (λ ms, ∃ m', ms !! id = Some m' ∧ same_content m m'
                        ∧ (deleted m = true → deleted m' = true))).
  - intros ms ms' (m1 & H1 & Hc & Hd) [| id0 m0 Hn _ _ | id0 m0 m0' Hs Hstep].
    + by exists m1.
    + exists m1. rewrite lookup_insert_ne; [done|congruence].
    + destruct (decide (id0 = id)) as [->|Hne].
      * exists m0'. rewrite lookup_insert_eq. simplify_eq. split_and!; [done| |].
        -- eapply same_content_trans; [done|by apply doc_step_same_content].
        -- intros ?. eapply doc_step_deleted; [done|auto].
      * exists m1. by rewrite lookup_insert_ne.
  - exists m. split_and!; [done|apply same_content_refl|done].
Qed.

Lemma write_bodies_ok e ms ms' : bodies_ok ms → write e ms ms' → bodies_ok ms'.
Proof.
  intros H [| m0 Hn Hb _ _ _ _ | id0 m0 m0' Hs Hstep] id m; [apply H| |].
  - rewrite lookup_insert. case_decide; [|apply H]. by intros [= <-].
  - rewrite lookup_insert. case_decide; [|apply H]. intros [= <-].
    destruct (doc_step_same_content _ _ Hstep) as (_&_&_&_&_&_&->&_).
    by eapply H.
Qed.

(** X2.  The handlers keep the stored bodies valid: started from a
    collection in which every body is trimmed, not empty and at most 2000
    code units long (an empty collection, say), every run of the server,
    socket events and REST requests mixed, ends in such a collection. *)
Theorem stored_bodies_stay_valid
    (db : Db) (tr : list (Env * input)) (Hdb : bodies_ok (messages db)) :
  bodies_ok (messages (store (run tr (boot db)).1)).
Proof.
  change (messages db) with (messages (store (boot db))) in Hdb.
  revert Hdb. generalize (boot db). induction tr as [|[e i] tr IH]; intros st H; [done|].
  rewrite run_cons. simpl. apply IH. eapply write_bodies_ok; [exact H|]. apply step_write.
Qed.

End writes.

(** ** Counting *)

Section counting.

Lemma filter_length_perm {A} (f : A → bool) (l k : list A) :
  l ≡ₚ k → length (List.filter f l) = length (List.filter f k).
Proof.
  induction 1 as [|x l k _ IH|x y l|l k j _ IH1 _ IH2]; simpl; [done| | |congruence].
  - destruct (f x); simpl; by rewrite IH.
  - by destruct (f x), (f y).
Qed.

Lemma matches_id aid before id id' m :
  matches aid before (id, m) = matches aid before (id', m).
Proof. done. Qed.

Lemma count_of_insert_new aid (ms : gmap oid ChatMessage) id m :
  ms !! id = None →
  count_of aid (<[id := m]> ms) = (counts_for aid m + count_of aid ms)%nat.
Proof.
  intros H. unfold count_of, counts_for.
  rewrite (filter_length_perm _ _ _ (map_to_list_insert ms id m H)). simpl.
  rewrite (matches_id aid None id 0%N). by destruct (matches aid None (0%N, m)).
Qed.

Lemma count_of_insert_upd aid (ms : gmap oid ChatMessage) id m m' :
  ms !! id = Some m →
  (count_of aid (<[id := m']> ms) + counts_for aid m
   = count_of aid ms + counts_for aid m')%nat.
Proof.
  intros H.
  pose proof (insert_delete_eq ms id m') as E1.
  pose proof (insert_delete_id ms id m H) as E2.
  pose proof (lookup_delete_eq ms id) as Hn.
  set (ms0 := delete id ms) in *. clearbody ms0.
  rewrite <- E1, <- E2. rewrite !count_of_insert_new by done. lia.
Qed.


Lemma counts_for_react aid m uid emoji t t' :
  counts_for aid (set_updatedAt t' (set_reactions (setReaction uid emoji t (reactions m)) m))
  = counts_for aid m.
Proof. done. Qed.

Lemma counts_for_deleted aid m : deleted m = true → counts_for aid m = 0%nat.
Proof.
  intros H. unfold counts_for, matches. simpl. rewrite H. simpl.
  by rewrite andb_false_r.
Qed.

Lemma counts_for_fresh aid m :
  deleted m = false → msgType m = text →
  counts_for aid m = if decide (asteroidId m = aid) then 1%nat else 0%nat.
Proof.
  intros Hd Ht. unfold counts_for, matches. simpl. rewrite Hd, Ht. simpl.
  case_decide.
  - by rewrite bool_decide_eq_true_2.
  - by rewrite bool_decide_eq_false_2.
Qed.

Lemma getMessageCount_healthy aid db :
  healthy db →
  (get_count aid db).2 = mkResponse 200 (counted (count_of aid (messages db))).
Proof.
  intros Hh. unfold get_count, getMessageCount.
  destruct (roundtrip_healthy db Hh) as [Hb _]. pose proof (roundtrip_messages db) as Hm.
  destruct (roundtrip db) as [b db']; simpl in *; subst b. simpl. by rewrite Hm.
Qed.

(** X3.  The number [GET /:asteroidId/count] reports follows the writes of
    each handler run: a message the run stores adds one to the count of its
    topic and nothing to the others; a run that flags a message as deleted
    takes it out of the count it was in; and a run that stores nothing and
    deletes nothing (a reaction, a second delete of the same message, any
    rejected request) leaves every count as it was. *)
Theorem count_follows_writes (e : Env) (i : input) (st : State) (aid : jsstring) :
  let ms := messages (store st) in
  let ms' := messages (store (step e i st).1) in
  (healthy (store st) →
     (get_count aid (store st)).2 = mkResponse 200 (counted (count_of aid ms)))
  ∧ (∀ id m, ms !! id = None → ms' !! id = Some m →
       count_of aid ms'
       = (count_of aid ms + if decide (asteroidId m = aid) then 1 else 0)%nat)
  ∧ (∀ id m m', ms !! id = Some m → ms' !! id = Some m' →
       deleted m = false → deleted m' = true →
       (count_of aid ms' + counts_for aid m = count_of aid ms)%nat)
  ∧ ((∀ id, ms !! id = None → ms' !! id = None) →
     (∀ id m m', ms !! id = Some m → ms' !! id = Some m' → deleted m' = deleted m) →
     count_of aid ms' = count_of aid ms).
Proof.
  intros ms ms'. split; [apply getMessageCount_healthy|].
  pose proof (step_write e i st) as Hw. fold ms ms' in Hw.
  destruct Hw as [| m0 Hn Hb Ht Hr Hd Hc | id0 m0 m0' Hs Hstep]; split_and!.
  - intros id m H1 H2. congruence.
  - intros id m m' H1 H2 H3 H4. congruence.
  - done.
  - intros id m H1. rewrite lookup_insert. case_decide as E; [|congruence].
    intros [= <-]. rewrite count_of_insert_new by done.
    rewrite counts_for_fresh by done. lia.
  - intros id m m' H1. rewrite lookup_insert. case_decide as E; [congruence|].
    intros H2 H3 H4. congruence.
  - intros H1 _. specialize (H1 _ Hn). by rewrite lookup_insert_eq in H1.
  - intros id m H1. rewrite lookup_insert. case_decide as E; congruence.
  - intros id m m' H1. rewrite lookup_insert. case_decide as E.
    + subst id0. intros [= <-] H3 H4. rewrite Hs in H1. injection H1 as <-.
      pose proof (count_of_insert_upd aid ms id m0 m0' Hs) as Hc.
      rewrite (counts_for_deleted aid m0') in Hc by done. lia.
    + intros H2 H3 H4. congruence.
  - intros _ H2.
    pose proof (count_of_insert_upd aid ms id0 m0 m0' Hs) as Hc.
    specialize (H2 id0 m0 m0' Hs (lookup_insert_eq _ _ _)).
    destruct Hstep as [uid emoji t t'|t t'].
    + rewrite counts_for_react in Hc. lia.
    + simpl in H2. rewrite (counts_for_deleted aid m0) in Hc by done.
      rewrite (counts_for_deleted aid _) in Hc by done. lia.
Qed.

End counting.

(** ** Pages of history *)

Section pages.

Lemma matches_cursor aid before d :
  matches aid before d = true → matches aid None d = true.
Proof. rewrite !matches_spec. intros (?&?&?&_). by repeat split. Qed.

Lemma filter_length_impl {A} (f g : A → bool) (l : list A) :
  (∀ x, f x = true → g x = true) →
  (length (List.filter f l) ≤ length (List.filter g l))%nat.
Proof.
  intros H. induction l as [|x l IH]; simpl; [done|].
  destruct (f x) eqn:E.
  - rewrite (H x E). simpl. lia.
  - destruct (g x); simpl; lia.
Qed.

Lemma length_find_sorted_exact aid n before ms :
  0 < n →
  length (find_sorted aid n before ms)
  = (Z.to_nat n `min`
       length (List.filter (matches aid before) (map_to_list ms)))%nat.
Proof.
  intros Hn. unfold find_sorted, limit.
  destruct (n =? 0) eqn:E; [apply Z.eqb_eq in E; lia|].
  rewrite length_take, length_sort_desc. lia.
Qed.

(** What [limit] cuts off is no newer than what it keeps. *)
Lemma find_sorted_newest aid n before (ms : gmap oid ChatMessage) id m x :
  ms !! id = Some m → matches aid before (id, m) = true →
  (id, m) ∉ find_sorted aid n before ms → x ∈ find_sorted aid n before ms →
  createdAt m ≤ createdAt x.2.
Proof.
  intros Hm Hmatch Hnot Hx. unfold find_sorted in *.
  set (L := List.filter (matches aid before) (map_to_list ms)) in *.
  assert (HL : (id, m) ∈ sort_desc L).
  { rewrite elem_of_sort_desc. unfold L. rewrite list_elem_of_In, filter_In.
    split; [|done].
    rewrite <- list_elem_of_In. by apply elem_of_map_to_list. }
  destruct (limit_prefix n (sort_desc L)) as [k Hk].
  pose proof (sort_desc_sorted L) as Hs. unfold descending in Hs.
  rewrite Hk in HL, Hs. apply elem_of_app in HL as [HL|HL]; [done|].
  by apply (StronglySorted_app_1_elem_of _ _ _ _ _ Hs Hx HL).
Qed.

Lemma get_messages_inv aid lim before db db' c n l :
  get_messages aid lim before db = (db', mkResponse c (messageList n l)) →
  l = reverse (find_sorted aid (default 50 lim) before (messages db))
  ∧ n = length l ∧ c = 200%nat ∧ messages db' = messages db.
Proof.
  unfold get_messages, find_query. pose proof (roundtrip_messages db) as Hm.
  destruct (roundtrip db) as [[] d]; simpl in *; [done|].
  intros [= <- <- <- <-]. rewrite Hm. split_and!; try done. by rewrite length_reverse.
Qed.

Lemma get_messages_healthy aid lim before db :
  healthy db →
  let l := reverse (find_sorted aid (default 50 lim) before (messages db)) in
  (get_messages aid lim before db).2 = mkResponse 200 (messageList (length l) l).
Proof.
  intros Hh l. unfold get_messages.
  destruct (find_query_healthy aid (default 50 lim) before db Hh) as [E _].
  destruct (find_query _ _ _ db) as [r db']; simpl in *; subst r. simpl.
  unfold l. by rewrite length_reverse.
Qed.

(** X4.  A page of history holds the newest messages: with the store
    serving the query and a positive limit, [GET /:asteroidId/messages]
    answers 200 with a [count] that is the length of its list; without a
    cursor the list holds exactly as many messages as the smaller of the
    limit and the topic's count, with a cursor no more than that; and every
    message of the query that the limit cut off is no newer than every
    message in the list. *)
Theorem page_holds_the_newest
    (aid : jsstring) (lim before : option Z) (db : Db)
    (Hh : healthy db) (Hpos : 0 < default 50 lim) :
  let l := reverse (find_sorted aid (default 50 lim) before (messages db)) in
  (get_messages aid lim before db).2 = mkResponse 200 (messageList (length l) l)
  ∧ (before = None →
     length l = (Z.to_nat (default 50%Z lim) `min` count_of aid (messages db))%nat)
  ∧ (length l ≤ Z.to_nat (default 50%Z lim) `min` count_of aid (messages db))%nat
  ∧ (∀ id m x, messages db !! id = Some m → matches aid before (id, m) = true →
       (id, m) ∉ l → x ∈ l → createdAt m ≤ createdAt x.2).
Proof.
  intros l. split_and!.
  - by apply get_messages_healthy.
  - intros ->. unfold l. rewrite length_reverse. by apply length_find_sorted_exact.
  - unfold l. rewrite length_reverse, length_find_sorted_exact by done.
    pose proof (filter_length_impl (matches aid before) (matches aid None)
                  (map_to_list (messages db)) (matches_cursor aid before)).
    unfold count_of. lia.
  - intros id m x Hm Hmatch Hnot Hx. unfold l in *.
    rewrite elem_of_reverse in Hnot, Hx. by eapply find_sorted_newest.
Qed.

(** X5.  Paging backward never repeats a message: when a second
    [GET /:asteroidId/messages] takes as its cursor the creation time of
    the first (oldest) message of a page, every message it returns is
    older than every message of that page, and so is none of them. *)
Theorem paging_back_never_repeats
    (aid : jsstring) (lim1 before1 lim2 : option Z) (db db1 db2 : Db)
    (c1 n1 c2 n2 : nat) (l1 l2 : list stored) (first : stored)
    (H1 : get_messages aid lim1 before1 db = (db1, mkResponse c1 (messageList n1 l1)))
    (Hf : head l1 = Some first)
    (H2 : get_messages aid lim2 (Some (createdAt first.2)) db1
          = (db2, mkResponse c2 (messageList n2 l2))) :
  ∀ x, x ∈ l2 → (x ∉ l1) ∧ ∀ y, y ∈ l1 → createdAt x.2 < createdAt y.2.
Proof.
  apply get_messages_inv in H1 as (-> & _ & _ & Hm1).
  apply get_messages_inv in H2 as (-> & _ & _ & _).
  intros [id m] Hx. rewrite elem_of_reverse in Hx.
  apply find_sorted_elem in Hx as (_ & _ & _ & _ & Hlt). specialize (Hlt _ eq_refl).
  assert (Hall : ∀ y, y ∈ reverse (find_sorted aid (default 50 lim1) before1 (messages db)) →
                      createdAt (id, m).2 < createdAt y.2).
  { intros y Hy.
    pose proof (reverse_ascending _ (find_sorted_desc aid (default 50 lim1) before1
                                        (messages db))) as Hasc.
    unfold ascending in Hasc.
    destruct (reverse (find_sorted aid (default 50 lim1) before1 (messages db)))
      as [|h t] eqn:E; [done|].
    simpl in Hf. injection Hf as ->.
    apply StronglySorted_cons in Hasc as [Hfa _].
    apply elem_of_cons in Hy as [->|Hy]; [done|].
    rewrite Forall_forall in Hfa. specialize (Hfa y Hy). simpl in *. lia. }
  split; [|exact Hall]. intros Hin. specialize (Hall _ Hin). lia.
Qed.

Lemma sort_desc_head (L : list stored) d :
  d ∈ L → (∀ x, x ∈ L → x = d ∨ createdAt x.2 < createdAt d.2) →
  head (sort_desc L) = Some d.
Proof.
  intros Hd Hmax. apply elem_of_sort_desc in Hd.
  pose proof (sort_desc_sorted L) as Hs. unfold descending in Hs.
  destruct (sort_desc L) as [|h t] eqn:E; [by apply elem_of_nil in Hd|].
  simpl. f_equal.
  assert (Hh : h ∈ L) by (apply elem_of_sort_desc; rewrite E; by left).
  destruct (Hmax h Hh) as [|Hlt]; [done|exfalso].
  apply StronglySorted_cons in Hs as [Hfa _].
  apply elem_of_cons in Hd as [->|Hd]; [lia|].
  rewrite Forall_forall in Hfa. specialize (Hfa d Hd). simpl in Hfa. lia.
Qed.

(** X6.  What is sent is what the next joiner reads last: when a send is
    accepted and stored, at a time later than the creation of every message
    already stored for the topic, the history delivered to a socket that
    then joins the topic ends with the message just stored. *)
Theorem sent_message_ends_next_history
    (e : Env) (s : sid) (d : sendData) (ss : sockets) (db : Db)
    (so : Socket) (uid : oid) (b aid neo : jsstring) (s' : sid) (so' : Socket)
    (Hs : ss !! s = Some so) (Hu : s_userId so = Some uid)
    (Hb : body_ok (d_message d) b)
    (Ha : truthy (d_asteroidId d) = Some aid)
    (Hn : truthy (d_neoReferenceId d) = Some neo)
    (Hh : healthy db) (Hf : messages db !! new_id e = None)
    (Hlate : ∀ id m, messages db !! id = Some m → asteroidId m = aid →
                     createdAt m < now e)
    (Hs' : ss !! s' = Some so') :
  ∃ m l, messages (sendMessage e s d ss db).1 !! new_id e = Some m
         ∧ message m = trim b
         ∧ (s', chatHistory l) ∈ (joinAsteroid s' aid ss (sendMessage e s d ss db).1).2
         ∧ last l = Some (new_id e, m).
Proof.
  destruct (sendMessage_accepts e s d ss db so uid b aid neo Hs Hu Hb Ha Hn Hh Hf)
    as [E1 _].
  set (m := mkChatMessage _ _ _ _ _ _ _ _ _ _ _ _ _ _ _ _) in E1.
  assert (Hh1 : healthy (sendMessage e s d ss db).1).
  { unfold sendMessage.
    destruct (proj1 (body_ok_checks _ _) Hb) as (Hb' & Ht & Hl).
    rewrite Hs, Ha, Hn, Hb', Ht, Hl, Hu.
    match goal with |- context[save_new ?i ?x db] =>
      destruct (save_new_healthy i x db Hh Hf) as (E & Hh' & _);
      destruct (save_new i x db) as [r db'] end.
    simpl in *. by subst r. }
  set (db1 := (sendMessage e s d ss db).1) in *.
  exists m, (reverse (find_sorted aid 50 None (messages db1))). split_and!.
  - rewrite E1. apply lookup_insert_eq.
  - done.
  - unfold joinAsteroid, getChatHistory. rewrite Hs'.
    destruct (find_query_healthy aid (default 50 (Some 50)) None db1 Hh1) as [E _].
    destruct (find_query _ _ _ db1) as [r db2]; simpl in *; subst r.
    apply elem_of_cons. by left.
  - rewrite last_reverse. unfold find_sorted, limit.
    change (50 =? 0) with false. cbv iota.
    assert (Hhd : ∀ k : list stored, head (take (Z.abs_nat 50) k) = head k)
      by (by intros []).
    rewrite Hhd. apply sort_desc_head.
    + rewrite list_elem_of_In, filter_In. split.
      * rewrite <- list_elem_of_In. apply elem_of_map_to_list.
        rewrite E1. apply lookup_insert_eq.
      * apply matches_spec. simpl. split_and!; [done|done|done|done].
    + intros [id x] Hx. rewrite list_elem_of_In, filter_In in Hx. destruct Hx as [Hx1 Hx2].
      rewrite <- list_elem_of_In in Hx1.
      apply (proj1 (elem_of_map_to_list _ id x)) in Hx1. rewrite E1 in Hx1.
      apply matches_spec in Hx2 as (Hx2 & _). simpl in *.
      rewrite lookup_insert in Hx1. case_decide as Hid.
      * injection Hx1 as <-. subst id. by left.
      * right. by apply (Hlate id x).
Qed.

End pages.

(** ** Errors and guests *)

Ltac error_branch H :=
  first [ by apply elem_of_nil in H
        | by apply elem_of_io_to in H as [[=] _]
        | by apply elem_of_socket_to in H as [[=] _]
        | apply list_elem_of_singleton in H; injection H as -> ->;
          repeat spec_of_call; split_and!; (done || congruence) ].

Section errors.

Lemma sendMessage_error e s d ss db t reason :
  (t, chatError reason) ∈ (sendMessage e s d ss db).2 →
  t = s ∧ (sendMessage e s d ss db).2 = [(s, chatError reason)]
  ∧ messages (sendMessage e s d ss db).1 = messages db.
Proof.
  unfold sendMessage, socket_emit. intros H.
  repeat case_match; simplify_eq; simpl in *; error_branch H.
Qed.

Lemma addReaction_error e s mid emoji ss db t reason :
  (t, chatError reason) ∈ (addReaction e s mid emoji ss db).2 →
  t = s ∧ (addReaction e s mid emoji ss db).2 = [(s, chatError reason)]
  ∧ messages (addReaction e s mid emoji ss db).1 = messages db.
Proof.
  unfold addReaction, socket_emit. intros H.
  repeat case_match; simplify_eq; simpl in *; error_branch H.
Qed.

Lemma deleteMessage_error e s mid ss db t reason :
  (t, chatError reason) ∈ (deleteMessage e s mid ss db).2 →
  t = s ∧ (deleteMessage e s mid ss db).2 = [(s, chatError reason)]
  ∧ messages (deleteMessage e s mid ss db).1 = messages db.
Proof.
  unfold deleteMessage, socket_emit. intros H.
  repeat case_match; simplify_eq; simpl in *; error_branch H.
Qed.

(** X7.  An error stays with the one who caused it: whenever a step of the
    server delivers a [chatError], the receiver is the socket the input
    came from, that delivery is all the step emits, and the step has changed
    neither the message collection nor any socket's rooms. *)
Theorem error_is_scoped_and_harmless
    (e : Env) (i : input) (st : State) (t : sid) (reason : jsstring)
    (H : (t, chatError reason) ∈ emitted (step e i st).2) :
  initiator i = Some t
  ∧ emitted (step e i st).2 = [(t, chatError reason)]
  ∧ messages (store (step e i st).1) = messages (store st)
  ∧ socks (step e i st).1 = socks st.
Proof.
  destruct i; simpl in H |- *.
  - by apply elem_of_nil in H.
  - exfalso. unfold joinAsteroid in H.
    destruct (socks st !! s); simpl in H; [|by apply elem_of_nil in H].
    destruct (getChatHistory _ _ _ _) as [[] ?]; simpl in H;
      apply elem_of_cons in H as [[=]|H]; unfold socket_to, io_to in H; kill H.
  - exfalso. open_handlers H; kill H.
  - pose proof (sendMessage_error e s d (socks st) (store st) t reason) as L.
    destruct (sendMessage _ _ _ _ _) as [db out]; simpl in *.
    destruct (L H) as (-> & -> & ->). done.
  - exfalso. open_handlers H; kill H.
  - exfalso. open_handlers H; kill H.
  - pose proof (addReaction_error e s messageId emoji (socks st) (store st) t reason) as L.
    destruct (addReaction _ _ _ _ _ _) as [db out]; simpl in *.
    destruct (L H) as (-> & -> & ->). done.
  - pose proof (deleteMessage_error e s messageId (socks st) (store st) t reason) as L.
    destruct (deleteMessage _ _ _ _ _) as [db out]; simpl in *.
    destruct (L H) as (-> & -> & ->). done.
  - exfalso. open_handlers H; kill H.
  - destruct (get_messages _ _ _ _). by apply elem_of_nil in H.
  - destruct (post_message _ _ _ _ _ _). by apply elem_of_nil in H.
  - destruct (delete_message _ _ _ _). by apply elem_of_nil in H.
  - destruct (get_count _ _). by apply elem_of_nil in H.
  - destruct (post_reaction _ _ _ _ _). by apply elem_of_nil in H.
Qed.

End errors.

Section guests.

(** X8.  Identity is fixed at the handshake: no step of the server changes
    the user id, the name or the avatar of a socket that stays connected. *)
Theorem identity_is_fixed
    (e : Env) (i : input) (st : State) (t : sid) (so so' : Socket)
    (H : socks st !! t = Some so)
    (H' : socks (step e i st).1 !! t = Some so') :
  s_userId so' = s_userId so ∧ s_username so' = s_username so
  ∧ s_userAvatar so' = s_userAvatar so.
Proof.
  destruct i; simpl in H';
    try (destruct (sendMessage _ _ _ _ _)); try (destruct (addReaction _ _ _ _ _ _));
    try (destruct (deleteMessage _ _ _ _ _)); try (destruct (get_messages _ _ _ _));
    try (destruct (post_message _ _ _ _ _ _)); try (destruct (delete_message _ _ _ _));
    try (destruct (get_count _ _)); try (destruct (post_reaction _ _ _ _ _));
    simpl in H'; try (by simplify_eq).
  - unfold connection in H'. destruct (socks st !! s) eqn:E; [by simplify_eq|].
    rewrite lookup_insert in H'. case_decide; by simplify_eq.
  - unfold joinAsteroid in H'. destruct (socks st !! s) eqn:E; simpl in H'; [|by simplify_eq].
    destruct (getChatHistory _ _ _ _). simpl in H'.
    rewrite lookup_insert in H'. case_decide; by simplify_eq.
  - unfold leaveAsteroid in H'. destruct (socks st !! s) eqn:E; simpl in H'; [|by simplify_eq].
    destruct (s_currentRoom s0); simpl in H'; [|by simplify_eq].
    rewrite lookup_insert in H'. case_decide; by simplify_eq.
  - unfold disconnect in H'. destruct (socks st !! s) eqn:E; simpl in H'; [|by simplify_eq].
    destruct (s_currentRoom s0); simpl in H';
      rewrite lookup_delete in H'; case_decide; by simplify_eq.
Qed.

Lemma guest_step
    (e : Env) (i : input) (st : State) (s : sid) (so : Socket)
    (Hi : initiator i = Some s)
    (Hs : socks st !! s = Some so)
    (Hg : s_userId so = None) :
  messages (store (step e i st).1) = messages (store st)
  ∧ ∀ t ev, (t, ev) ∈ emitted (step e i st).2 → guest_event ev.
Proof.
  destruct i; simpl in Hi; simplify_eq; simpl.
  - split; [done|]. by intros t ev ?%elem_of_nil.
  - pose proof (joinAsteroid_msgs s aid (socks st) (store st)) as Hm.
    unfold joinAsteroid in *. rewrite Hs in *.
    destruct (getChatHistory _ _ _ _) as [h db']. simpl in *. split; [done|].
    intros t ev H. apply elem_of_app in H as [H|H].
    { destruct h; apply list_elem_of_singleton in H; by simplify_eq. }
    apply elem_of_app in H as [H|H].
    + by apply elem_of_socket_to in H as [-> _].
    + by apply elem_of_io_to in H as [-> _].
  - unfold leaveAsteroid. rewrite Hs. destruct (s_currentRoom so); simpl; split; try done.
    + intros t ev H. apply elem_of_app in H as [H|H].
      * by apply elem_of_socket_to in H as [-> _].
      * by apply elem_of_io_to in H as [-> _].
    + by intros t ev ?%elem_of_nil.
  - destruct (sendMessage_rejects e s d (socks st) (store st) so Hs (or_introl Hg))
      as [reason ->]. simpl. split; [done|].
    by intros t ev [= -> ->]%list_elem_of_singleton.
  - split; [done|]. unfold typing. rewrite Hs, Hg.
    destruct (s_currentRoom so); by intros t ev ?%elem_of_nil.
  - split; [done|]. unfold stopTyping. rewrite Hs, Hg.
    destruct (s_currentRoom so); by intros t ev ?%elem_of_nil.
  - unfold addReaction. rewrite Hs, Hg. simpl. split; [done|].
    by intros t ev [= -> ->]%list_elem_of_singleton.
  - unfold deleteMessage. rewrite Hs, Hg. simpl. split; [done|].
    by intros t ev [= -> ->]%list_elem_of_singleton.
  - unfold disconnect. rewrite Hs. destruct (s_currentRoom so); simpl; split; try done.
    + intros t ev H. apply elem_of_app in H as [H|H].
      * by apply elem_of_socket_to in H as [-> _].
      * by apply elem_of_io_to in H as [-> _].
    + by intros t ev ?%elem_of_nil.
Qed.

(** X9.  A guest only watches: an input that comes from a socket without a
    user id leaves the message collection as it was, and all it can cause
    to be delivered is a history, a joined or left announcement, an
    occupancy count or an error; never a message, a reaction update, a
    deletion or a typing notice. *)
Theorem guest_only_watches
    (e : Env) (i : input) (st : State) (s : sid) (so : Socket)
    (Hi : initiator i = Some s)
    (Hs : socks st !! s = Some so)
    (Hg : s_userId so = None) :
  messages (store (step e i st).1) = messages (store st)
  ∧ ∀ t ev, (t, ev) ∈ emitted (step e i st).2 → guest_event ev.
Proof. exact (guest_step e i st s so Hi Hs Hg). Qed.

End guests.

(** ** Joining, leaving, disconnecting *)

Section membership.


Lemma step_current_ok e i st :
  (∀ s so, socks st !! s = Some so → current_ok so) →
  ∀ s so, socks (step e i st).1 !! s = Some so → current_ok so.
Proof.
  intros H s so. destruct i; simpl;
    try (destruct (sendMessage _ _ _ _ _)); try (destruct (addReaction _ _ _ _ _ _));
    try (destruct (deleteMessage _ _ _ _ _)); try (destruct (get_messages _ _ _ _));
    try (destruct (post_message _ _ _ _ _ _)); try (destruct (delete_message _ _ _ _));
    try (destruct (get_count _ _)); try (destruct (post_reaction _ _ _ _ _));
    simpl; try apply H.
  - unfold connection. destruct (socks st !! s0) eqn:E; [apply H|].
    rewrite lookup_insert. case_decide; [|apply H]. intros [= <-]. by destruct who.
  - unfold joinAsteroid. destruct (socks st !! s0) eqn:E; simpl; [|apply H].
    destruct (getChatHistory _ _ _ _). simpl.
    rewrite lookup_insert. case_decide; [|apply H]. intros [= <-].
    unfold current_ok. simpl. by eexists.
  - unfold leaveAsteroid. destruct (socks st !! s0) eqn:E; simpl; [|apply H].
    destruct (s_currentRoom s1); simpl; [|apply H].
    rewrite lookup_insert. case_decide; [|apply H]. by intros [= <-].
  - unfold disconnect. destruct (socks st !! s0) eqn:E; simpl; [|apply H].
    destruct (s_currentRoom s1); simpl;
      rewrite lookup_delete; case_decide; try done; apply H.
Qed.

Lemma run_current_ok tr st :
  (∀ s so, socks st !! s = Some so → current_ok so) →
  ∀ s so, socks (run tr st).1 !! s = Some so → current_ok so.
Proof.
  revert st. induction tr as [|[e i] tr IH]; intros st H; [done|].
  rewrite run_cons. simpl. by apply IH, step_current_ok.
Qed.

(** X11.  One room per connection, in every state the server reaches: a
    socket is a member of at most one asteroid room; when its
    [currentRoom] is set it is a member of that room, the room is the one
    named after its [currentAsteroid], and when it is not set neither is
    [currentAsteroid]. *)
Theorem one_room_per_connection
    (db : Db) (tr : list (Env * input)) (s : sid) (so : Socket)
    (Hs : socks (run tr (boot db)).1 !! s = Some so) :
  let ss := socks (run tr (boot db)).1 in
  (∀ r1 r2, s ∈ members ss r1 → s ∈ members ss r2 →
     startsWith (js "asteroid:") r1 → startsWith (js "asteroid:") r2 → r1 = r2)
  ∧ (∀ r, s_currentRoom so = Some r →
       s ∈ members ss r
       ∧ ∃ aid, s_currentAsteroid so = Some aid ∧ r = room_of aid)
  ∧ (s_currentRoom so = None → s_currentAsteroid so = None).
Proof.
  intros ss.
  destruct (run_single_room tr (boot db) (boot_single_room db) s so Hs) as [H1 H2].
  assert (Hc : current_ok so).
  { apply (run_current_ok tr (boot db)) with (s := s); [|done].
    intros t x. simpl. by rewrite lookup_empty. }
  unfold current_ok in Hc. split_and!.
  - intros r1 r2 (x & Hx & Hr1)%elem_of_members (y & Hy & Hr2)%elem_of_members.
    fold ss in Hs. simplify_eq. by apply H1.
  - intros r Hr. rewrite Hr in Hc. destruct (H2 _ Hr) as [Hin _].
    split; [|done]. apply elem_of_members. by exists so.
  - intros Hr. by rewrite Hr in Hc.
Qed.

(** X12.  Leaving is idempotent: after a [leaveAsteroid] a second one
    changes nothing and emits nothing, the socket's typing events reach no
    one, and its disconnect is silent, so that a departure is announced at
    most once; the leave itself sends no left announcement to the leaver
    and touches no other socket. *)
Theorem leaving_is_idempotent (s : sid) (ss : sockets) :
  let r := leaveAsteroid s ss in
  leaveAsteroid s r.1 = (r.1, [])
  ∧ typing s r.1 = [] ∧ stopTyping s r.1 = []
  ∧ (disconnect s r.1).2 = []
  ∧ (∀ a b, (s, userLeft a b) ∉ r.2)
  ∧ (∀ t, t ≠ s → r.1 !! t = ss !! t).
Proof.
  intros r. unfold r, leaveAsteroid, typing, stopTyping, disconnect.
  destruct (ss !! s) as [so|] eqn:E; simpl.
  - destruct (s_currentRoom so) as [room|] eqn:Ec; simpl.
    + rewrite !lookup_insert_eq. simpl. split_and!; try done.
      * intros a b H. apply elem_of_app in H as [H|H].
        -- by apply elem_of_socket_to in H as (_ & _ & ?).
        -- by apply elem_of_io_to in H as [[=] _].
      * intros t Ht. by rewrite lookup_insert_ne.
    + rewrite E, Ec. simpl. split_and!; try done. by intros a b ?%elem_of_nil.
  - rewrite E. split_and!; try done. by intros a b ?%elem_of_nil.
Qed.

(** X13.  A departure is announced to exactly the others: for a socket
    whose [currentRoom] is [room], both [leaveAsteroid] and the disconnect
    deliver the left announcement, bearing the socket's name, to every
    other member of [room] and to no one else; afterwards the socket is
    not a member of [room], and the memberships of the other sockets are
    what they were. *)
Theorem departure_is_announced_to_the_others
    (s : sid) (ss : sockets) (so : Socket) (room : jsstring)
    (Hs : ss !! s = Some so) (Hc : s_currentRoom so = Some room) :
  (∀ t a b, (t, userLeft a b) ∈ (leaveAsteroid s ss).2 ↔
     t ∈ members ss room ∧ t ≠ s ∧ a = s_username so
     ∧ b = s_username so ++ js " left the discussion")
  ∧ (∀ t a b, (t, userLeft a b) ∈ (disconnect s ss).2 ↔
       t ∈ members ss room ∧ t ≠ s ∧ a = s_username so
       ∧ b = s_username so ++ js " left the discussion")
  ∧ (s ∉ members (leaveAsteroid s ss).1 room)
  ∧ (s ∉ members (disconnect s ss).1 room)
  ∧ (∀ t r, t ≠ s →
       (t ∈ members (leaveAsteroid s ss).1 r ↔ t ∈ members ss r)
       ∧ (t ∈ members (disconnect s ss).1 r ↔ t ∈ members ss r)).
Proof.
  unfold leaveAsteroid, disconnect. rewrite Hs, Hc. simpl.
  assert (Hd : ∀ t r, t ≠ s → (t ∈ members (delete s ss) r ↔ t ∈ members ss r)).
  { intros t r Ht. rewrite !elem_of_members. by rewrite lookup_delete_ne. }
  assert (Hgone : ∀ r, s ∉ members (delete s ss) r).
  { intros r. rewrite elem_of_members, lookup_delete_eq. by intros (? & ? & _). }
  split_and!.
  - intros t a b. rewrite elem_of_app, elem_of_socket_to, elem_of_io_to.
    split; [|intros (? & ? & -> & ->); by left].
    intros [([= -> ->] & ? & ?)|[[=] _]]. done.
  - intros t a b. rewrite elem_of_app, elem_of_socket_to, elem_of_io_to.
    split.
    + intros [([= -> ->] & ? & ?)|[[=] _]]. split_and!; try done. by apply Hd.
    + intros (? & ? & -> & ->). left. split_and!; try done. by apply Hd.
  - rewrite elem_of_members, lookup_insert_eq. intros (x & [= <-] & Hx). simpl in Hx.
    apply elem_of_difference in Hx as [_ Hx]. by apply Hx, elem_of_singleton.
  - apply Hgone.
  - intros t r Ht. split; [|by apply Hd].
    rewrite !elem_of_members. by rewrite lookup_insert_ne.
Qed.

End membership.

(** ** The two channels *)

Section channels.

Lemma no_error_in_io_to (ss : sockets) room ev t reason :
  (∀ r, ev ≠ chatError r) → (t, chatError reason) ∉ io_to ss room ev.
Proof. intros H [E _]%elem_of_io_to. by apply (H reason). Qed.

(** X14.  The REST fallback writes what the live channel writes: for a
    socket authenticated as the user of the request, under any schedule of
    store faults, a reaction with an emoji leaves the database exactly as
    [addReaction] does and a delete exactly as [deleteMessage] does, the
    REST status being 200 exactly when the socket handler emits no
    [chatError]; and the message list of a [GET] without limit and cursor
    is the history a join delivers. *)
Theorem rest_writes_what_the_socket_writes
    (e : Env) (s : sid) (ss : sockets) (db : Db) (so : Socket) (u : User)
    (Hs : ss !! s = Some so) (Hu : s_userId so = Some (u_id u)) :
  (∀ mid emoji, falsy emoji = false →
     (post_reaction e u mid emoji db).1 = (addReaction e s mid emoji ss db).1
     ∧ (status (post_reaction e u mid emoji db).2 = 200%nat ↔
        ∀ t reason, (t, chatError reason) ∉ (addReaction e s mid emoji ss db).2))
  ∧ (∀ mid,
       (delete_message e u mid db).1 = (deleteMessage e s mid ss db).1
       ∧ (status (delete_message e u mid db).2 = 200%nat ↔
          ∀ t reason, (t, chatError reason) ∉ (deleteMessage e s mid ss db).2))
  ∧ (∀ aid,
       (get_messages aid None None db).1 = (joinAsteroid s aid ss db).1.2
       ∧ ∀ c n l, (get_messages aid None None db).2 = mkResponse c (messageList n l) →
                  (s, chatHistory l) ∈ (joinAsteroid s aid ss db).2).
Proof.
  split_and!.
  - intros mid emoji Hf. unfold post_reaction, addReaction. rewrite Hf, Hs, Hu.
    destruct (findById mid db) as [[[m|]|] db1]; simpl.
    + destruct (save _ _ _ db1) as [[m'|] db2]; simpl; split; try done.
      * split; [|done]. intros _ t reason. apply no_error_in_io_to. done.
      * split; [done|]. intros H. exfalso. eapply H. by apply list_elem_of_singleton.
    + split; [done|]. split; [done|]. intros H. exfalso. eapply H.
      by apply list_elem_of_singleton.
    + split; [done|]. split; [done|]. intros H. exfalso. eapply H.
      by apply list_elem_of_singleton.
  - intros mid. unfold delete_message, deleteMessage. rewrite Hs, Hu.
    destruct (findById mid db) as [[[m|]|] db1]; simpl.
    + destruct (bool_decide (userId m = u_id u)); simpl.
      * destruct (save _ _ _ db1) as [[m'|] db2]; simpl; split; try done.
        -- split; [|done]. intros _ t reason. apply no_error_in_io_to. done.
        -- split; [done|]. intros H. exfalso. eapply H. by apply list_elem_of_singleton.
      * split; [done|]. split; [done|]. intros H. exfalso. eapply H.
        by apply list_elem_of_singleton.
    + split; [done|]. split; [done|]. intros H. exfalso. eapply H.
      by apply list_elem_of_singleton.
    + split; [done|]. split; [done|]. intros H. exfalso. eapply H.
      by apply list_elem_of_singleton.
  - intros aid. unfold get_messages, joinAsteroid, getChatHistory. rewrite Hs. simpl.
    destruct (find_query aid 50 None db) as [[msgs|] db1]; simpl; split; try done.
    intros c n l [= _ _ <-]. apply elem_of_cons. by left.
Qed.

(** X15.  [POST /:asteroidId/messages] can fail after it has stored: for
    an asteroid id that casts to an ObjectId, when the lookup of the
    asteroid and the save are served but the query of the following
    [populate] fails at its attempt and at the retry, the answer is 500
    'Failed to send message' although the message is in the collection. *)
Theorem post_fails_after_storing
    (e : Env) (u : User) (aid : jsstring) (msg : option jsstring)
    (reply : option oid) (db : Db) (b : jsstring) (a : Asteroid) (fs : list bool)
    (Hc : hex24 aid = true)
    (Hb : body_ok msg b) (Ha : asteroids db !! aid = Some a)
    (Hf : messages db !! new_id e = None)
    (Hio : faults db = false :: false :: true :: true :: fs) :
  (post_message e u aid msg reply db).2
  = mkResponse 500 (failure (js "Failed to send message"))
  ∧ ∃ m, messages (post_message e u aid msg reply db).1 !! new_id e = Some m
         ∧ message m = trim b ∧ userId m = u_id u ∧ asteroidId m = aid.
Proof.
  destruct (proj1 (body_ok_checks _ _) Hb) as (Hb' & Ht & Hl).
  unfold post_message, Asteroid_findById, save_new, roundtrip.
  rewrite Hb', Ht, Hl, Hio. simpl. rewrite Ha, Hf. simpl.
  split; [done|]. eexists. rewrite lookup_insert_eq. by split_and!.
Qed.

End channels.

(** ** A reaction, in full *)

Section reaction_frame.

Lemma by_user_length uid rs : (length (by_user uid rs) ≤ length rs)%nat.
Proof.
  unfold by_user. induction rs as [|r rs IH]; simpl; [done|].
  destruct (bool_decide _); simpl; lia.
Qed.

Lemma setReaction_length uid emoji t rs :
  (length (setReaction uid emoji t rs) ≤ S (length rs))%nat.
Proof.
  unfold setReaction. rewrite length_app. simpl.
  assert (length (List.filter (λ r, negb (bool_decide (r_userId r = uid))) rs)
          ≤ length rs)%nat; [|lia].
  induction rs as [|r rs IH]; simpl; [done|]. destruct (negb _); simpl; lia.
Qed.

(** X16.  A served reaction touches one entry of one message: the message
    keeps its content, its deletion mark and deletion time (a deleted
    message takes reactions like any other); the reactions of every other
    user are what they were, in the same order; the new reaction is the
    last of the list, which has grown by at most one; and every other
    message is untouched. *)
Theorem reaction_touches_one_entry
    (e : Env) (s : sid) (mid : oid) (emoji : option jsstring)
    (ss : sockets) (db : Db) (so : Socket) (uid : oid) (m : ChatMessage)
    (Hh : healthy db) (Hs : ss !! s = Some so) (Hu : s_userId so = Some uid)
    (Hm : messages db !! mid = Some m) :
  ∃ m', messages (addReaction e s mid emoji ss db).1 = <[mid := m']> (messages db)
        ∧ same_content m m'
        ∧ deleted m' = deleted m ∧ deletedAt m' = deletedAt m
        ∧ last (reactions m') = Some (mkReaction emoji uid (now e))
        ∧ (∀ u', u' ≠ uid → by_user u' (reactions m') = by_user u' (reactions m))
        ∧ (length (reactions m') ≤ S (length (reactions m)))%nat.
Proof.
  destruct (addReaction_healthy e s mid emoji ss db so uid m Hh Hs Hu Hm) as (_ & E & _).
  eexists. split; [exact E|]. simpl.
  split_and!;
    [ by repeat split | done | done
    | unfold setReaction; apply last_snoc
    | intros u' Hne; by apply by_user_setReaction_other
    | apply setReaction_length ].
Qed.

End reaction_frame.

(** ** Relative times *)

Section relative_times.

(** X17.  [formattedTime] sorts an age into one bucket: 'Just now' below
    one minute (a creation time in the future included, and a missing one),
    whole minutes from 1 to 59 below one hour, whole hours from 1 to 23
    below one day, whole days from 1 to 6 below seven days, each rounded
    down, and the date from seven days on. *)
Theorem formattedTime_buckets (now t : Z) :
  formattedTime now None = JustNow
  ∧ match formattedTime now (Some t) with
    | JustNow => now - t < 60000
    | MinutesAgo n => 1 ≤ n ≤ 59 ∧ 60000 * n ≤ now - t < 60000 * (n + 1)
    | HoursAgo n => 1 ≤ n ≤ 23 ∧ 3600000 * n ≤ now - t < 3600000 * (n + 1)
    | DaysAgo n => 1 ≤ n ≤ 6 ∧ 86400000 * n ≤ now - t < 86400000 * (n + 1)
    | LocaleDate d => d = t ∧ 7 * 86400000 ≤ now - t
    end.
Proof.
  split; [done|]. unfold formattedTime.
  repeat (match goal with |- context[?a <? ?b] => destruct (Z.ltb_spec a b) end);
    Z.div_mod_to_equations; lia.
Qed.

End relative_times.

(** ** The handshake *)

Section handshake.

Lemma io_use_Some verify users fault h u :
  io_use verify users fault h = Some u ↔
  ∃ token doc, truthy (token_of h) = Some token ∧ verify token = Some (u_id u)
               ∧ fault = false ∧ users !! u_id u = Some doc
               ∧ u_username u = ud_username doc ∧ u_avatar u = ud_avatar doc.
Proof.
  unfold io_use. split.
  - destruct (truthy (token_of h)) as [token|]; [|done].
    destruct (verify token) as [id|] eqn:Ev; [|done].
    destruct fault; [done|]. destruct (users !! id) as [doc|] eqn:Ed; [|done].
    intros [= <-]. by exists token, doc.
  - intros (token & doc & -> & Hv & -> & Hd & Hn & Ha). rewrite Hv, Hd.
    destruct u. simpl in *. by subst.
Qed.

(** X18.  A handshake never fails, and grants an identity only to a token
    that verifies for a user on record: whatever the handshake, the fresh
    socket is connected; it carries a user id exactly when the token taken
    from the handshake (the [auth] token, or else the [query] token) is
    verified and the lookup of its user succeeds, and then the id, name and
    avatar are that user's; otherwise it is 'Guest', and no input it sends
    changes the message collection. *)
Theorem handshake_grants_or_degrades
    (verify : jsstring → option oid) (users : gmap oid UserDoc) (fault : bool)
    (h : handshake) (e0 e : Env) (s : sid) (st : State) (i : input)
    (Hfresh : socks st !! s = None) :
  let st1 := (step e0 (Connect s (io_use verify users fault h)) st).1 in
  ∃ so, socks st1 !! s = Some so
    ∧ s_rooms so = {[ s ]} ∧ s_currentRoom so = None
    ∧ (∀ id, s_userId so = Some id ↔
         ∃ token doc, truthy (token_of h) = Some token ∧ verify token = Some id
                      ∧ fault = false ∧ users !! id = Some doc
                      ∧ s_username so = ud_username doc
                      ∧ s_userAvatar so = ud_avatar doc)
    ∧ (s_userId so = None →
         s_username so = js "Guest"
         ∧ (initiator i = Some s →
            messages (store (step e i st1).1) = messages (store st1))).
Proof.
  intros st1. unfold st1. simpl. unfold connection. rewrite Hfresh.
  eexists. split; [apply lookup_insert_eq|].
  destruct (io_use verify users fault h) as [u|] eqn:E; simpl.
  - apply io_use_Some in E as (token & doc & Ht & Hv & -> & Hd & Hn & Ha).
    split_and!; try done.
    intros id. split.
    + intros [= <-]. by exists token, doc.
    + intros (token' & doc' & Ht' & Hv' & _). congruence.
  - split_and!; try done.
    + intros id. split; [done|].
      intros (token & doc & Ht & Hv & -> & Hd & _). exfalso.
      unfold io_use in E. by rewrite Ht, Hv, Hd in E.
    + intros _. split; [done|]. intros Hi.
      refine (proj1 (guest_step e i (mkState _ _) s
                       (mkSocket None (js "Guest") None {[s]} None None) Hi _ eq_refl)).
      simpl. apply lookup_insert_eq.
Qed.

End handshake.

(** ** The watchlist *)

Section watchlist.

Lemma isAsteroidWatched_elem aid wl :
  isAsteroidWatched aid wl = true ↔ aid ∈ watched_ids wl.
Proof.
  unfold isAsteroidWatched, watched_ids. induction wl as [|w wl IH]; simpl.
  - split; [done|by intros ?%elem_of_nil].
  - rewrite orb_true_iff, IH, bool_decide_eq_true, elem_of_cons. naive_solver.
Qed.

Lemma watched_ids_remove aid wl x :
  x ∈ watched_ids (List.filter (λ w, negb (bool_decide (w_asteroidId w = aid))) wl)
  ↔ x ∈ watched_ids wl ∧ x ≠ aid.
Proof.
  unfold watched_ids. induction wl as [|w wl IH]; simpl.
  - rewrite elem_of_nil. naive_solver.
  - case_bool_decide as E; simpl; rewrite ?fmap_cons, !elem_of_cons, IH; naive_solver.
Qed.

Lemma NoDup_remove aid wl :
  NoDup (watched_ids wl) →
  NoDup (watched_ids (List.filter (λ w, negb (bool_decide (w_asteroidId w = aid))) wl)).
Proof.
  unfold watched_ids. induction wl as [|w wl IH]; simpl; [done|].
  intros [Hn Hd]%NoDup_cons. case_bool_decide as E; simpl; [by apply IH|].
  apply NoDup_cons. split; [|by apply IH].
  intros H. apply Hn. by apply (watched_ids_remove aid wl) in H as [? _].
Qed.

Lemma save_user_served uid wl udb :
  (save_user uid wl udb).2 = true →
  watchlists (save_user uid wl udb).1 !! uid = Some wl.
Proof.
  unfold save_user. destruct (user_faults udb) as [|[] fs]; simpl; try done;
    intros _; apply lookup_insert_eq.
Qed.

Lemma save_user_failed uid wl udb :
  (save_user uid wl udb).2 = false →
  watchlists (save_user uid wl udb).1 = watchlists udb.
Proof. unfold save_user. by destruct (user_faults udb) as [|[] fs]. Qed.

(** X19.  The watchlist is a set of asteroid ids.  [addToWatchlist] makes
    the id watched and [removeFromWatchlist] makes it unwatched, neither
    changes whether any other id is watched, and both keep a watchlist
    free of repeated ids; adding an id that is watched already changes
    nothing and writes nothing; and whenever the save resolves, the stored
    watchlist is the document's, when it does not, the stored one is what
    it was. *)
Theorem watchlist_is_a_set
    (now : Z) (uid : oid) (aid : jsstring) (notes : option jsstring)
    (wl : list Watched) (udb : UserDb) :
  let a := addToWatchlist now uid aid notes wl udb in
  let r := removeFromWatchlist uid aid wl udb in
  isAsteroidWatched aid a.1.1 = true
  ∧ isAsteroidWatched aid r.1.1 = false
  ∧ (∀ x, x ≠ aid →
       isAsteroidWatched x a.1.1 = isAsteroidWatched x wl
       ∧ isAsteroidWatched x r.1.1 = isAsteroidWatched x wl)
  ∧ (NoDup (watched_ids wl) → NoDup (watched_ids a.1.1) ∧ NoDup (watched_ids r.1.1))
  ∧ (isAsteroidWatched aid wl = true → a = (wl, udb, true))
  ∧ (isAsteroidWatched aid wl = false →
       a.1.1 = wl ++ [mkWatched aid now (default [] notes)])
  ∧ (isAsteroidWatched aid wl = false → a.2 = true →
       watchlists a.1.2 !! uid = Some a.1.1)
  ∧ (r.2 = true → watchlists r.1.2 !! uid = Some r.1.1)
  ∧ (a.2 = false → watchlists a.1.2 = watchlists udb)
  ∧ (r.2 = false → watchlists r.1.2 = watchlists udb).
Proof.
  intros a r.
  set (wl' := wl ++ [mkWatched aid now (default [] notes)]).
  set (wr := List.filter (λ w, negb (bool_decide (w_asteroidId w = aid))) wl).
  assert (Ha : a = if negb (isAsteroidWatched aid wl)
                   then (wl', (save_user uid wl' udb).1, (save_user uid wl' udb).2)
                   else (wl, udb, true)).
  { unfold a, addToWatchlist. destruct (negb _); [|done]. fold wl'.
    by destruct (save_user uid wl' udb). }
  assert (Hr : r = (wr, (save_user uid wr udb).1, (save_user uid wr udb).2)).
  { unfold r, removeFromWatchlist. fold wr. by destruct (save_user uid wr udb). }
  assert (Hin' : ∀ x, x ∈ watched_ids wl' ↔ x ∈ watched_ids wl ∨ x = aid).
  { intros x. unfold wl', watched_ids. rewrite fmap_app, elem_of_app. simpl.
    by rewrite list_elem_of_singleton. }
  assert (Hb : ∀ x l1 l2, (x ∈ watched_ids l1 ↔ x ∈ watched_ids l2) →
                          isAsteroidWatched x l1 = isAsteroidWatched x l2).
  { intros x l1 l2 H. apply eq_true_iff_eq. by rewrite !isAsteroidWatched_elem. }
  rewrite Ha, Hr. clear Ha Hr. subst wr. simpl. split_and!.
  - destruct (isAsteroidWatched aid wl) eqn:Ew; simpl; [done|].
    apply isAsteroidWatched_elem, Hin'. by right.
  - apply not_true_iff_false. rewrite isAsteroidWatched_elem.
    intros [_ ?]%watched_ids_remove. done.
  - intros x Hx. split.
    + destruct (isAsteroidWatched aid wl); simpl; [done|].
      apply Hb. rewrite Hin'. naive_solver.
    + apply Hb. rewrite watched_ids_remove. naive_solver.
  - intros Hd. split; [|by apply NoDup_remove].
    destruct (isAsteroidWatched aid wl) eqn:Ew; simpl; [done|].
    subst wl'. unfold watched_ids. rewrite fmap_app. simpl.
    apply NoDup_app. split_and!; [done| |apply NoDup_singleton].
    intros x Hx ->%list_elem_of_singleton.
    apply isAsteroidWatched_elem in Hx. congruence.
  - by intros ->.
  - by intros ->.
  - intros ->. simpl. apply save_user_served.
  - apply save_user_served.
  - destruct (isAsteroidWatched aid wl); simpl; [done|]. apply save_user_failed.
  - apply save_user_failed.
Qed.

End watchlist.

(** ** Unknown messages, and where broadcasts go *)

Section broadcasts.

(** X20.  A message id that is not in the collection is answered as not
    found on both channels, and nothing is written: [addReaction] and
    [deleteMessage] of an authenticated socket emit the one [chatError]
    'Message not found' to it, and the REST routes answer 404. *)
Theorem unknown_message_is_not_found
    (e : Env) (s : sid) (mid : oid) (emoji : option jsstring)
    (ss : sockets) (db : Db) (so : Socket) (uid : oid) (u : User)
    (Hs : ss !! s = Some so) (Hu : s_userId so = Some uid)
    (Hm : messages db !! mid = None) (Hh : healthy db) :
  (addReaction e s mid emoji ss db).2 = [(s, chatError (js "Message not found"))]
  ∧ messages (addReaction e s mid emoji ss db).1 = messages db
  ∧ (deleteMessage e s mid ss db).2 = [(s, chatError (js "Message not found"))]
  ∧ messages (deleteMessage e s mid ss db).1 = messages db
  ∧ (falsy emoji = false →
       (post_reaction e u mid emoji db).2
       = mkResponse 404 (failure (js "Message not found"))
       ∧ messages (post_reaction e u mid emoji db).1 = messages db)
  ∧ (delete_message e u mid db).2 = mkResponse 404 (failure (js "Message not found"))
  ∧ messages (delete_message e u mid db).1 = messages db.
Proof.
  destruct (findById_healthy mid db Hh) as (E1 & _ & E2). rewrite Hm in E1.
  unfold addReaction, deleteMessage, post_reaction, delete_message. rewrite Hs, Hu.
  destruct (findById mid db) as [r db1]; simpl in *; subst r.
  split_and!; try done. intros ->. done.
Qed.

(** X21.  A broadcast goes to the room of the message's topic, wherever its
    sender is: with the store serving, the new message of an accepted send
    is delivered to exactly the members of the room of the topic named in
    the send, and the update of a reaction and the notice of a deletion to
    exactly the members of the room of the topic the stored message belongs
    to; the sender is among the receivers only if it is a member of that
    room. *)
Theorem broadcast_goes_to_the_topic_room
    (e : Env) (s : sid) (ss : sockets) (db : Db) (so : Socket) (uid : oid)
    (Hs : ss !! s = Some so) (Hu : s_userId so = Some uid) (Hh : healthy db) :
  (∀ d b aid neo,
     body_ok (d_message d) b →
     truthy (d_asteroidId d) = Some aid → truthy (d_neoReferenceId d) = Some neo →
     messages db !! new_id e = None →
     ∃ m, message m = trim b ∧ userId m = uid ∧ asteroidId m = aid
       ∧ ∀ t ev, (t, ev) ∈ (sendMessage e s d ss db).2 ↔
           t ∈ members ss (room_of aid) ∧ ev = newMessage (new_id e) m)
  ∧ (∀ mid emoji m, messages db !! mid = Some m →
       ∀ t ev, (t, ev) ∈ (addReaction e s mid emoji ss db).2 ↔
         t ∈ members ss (room_of (asteroidId m))
         ∧ ev = reactionUpdated mid (setReaction uid emoji (now e) (reactions m)))
  ∧ (∀ mid m, messages db !! mid = Some m → userId m = uid →
       ∀ t ev, (t, ev) ∈ (deleteMessage e s mid ss db).2 ↔
         t ∈ members ss (room_of (asteroidId m))
         ∧ ev = messageDeleted mid (s_username so)).
Proof.
  split_and!.
  - intros d b aid neo Hb Ha Hn Hf.
    destruct (sendMessage_accepts e s d ss db so uid b aid neo Hs Hu Hb Ha Hn Hh Hf)
      as [_ ->].
    eexists. split_and!; [| | |intros t ev; rewrite elem_of_io_to; naive_solver]; done.
  - intros mid emoji m Hm t ev.
    destruct (addReaction_healthy e s mid emoji ss db so uid m Hh Hs Hu Hm) as (_ & _ & ->).
    rewrite elem_of_io_to. simpl. naive_solver.
  - intros mid m Hm <- t ev.
    destruct (deleteMessage_own e s mid ss db so m Hs Hu Hm Hh) as (_ & _ & ->).
    rewrite elem_of_io_to. naive_solver.
Qed.

End broadcasts.

(** ** The scenario, continued *)

Section more_examples.
Import Scenario Cases.

Lemma stored_message_is_permanent_witness :
  ∃ m', messages (store (run [(at_ 5 500, AddReaction sA 7%N (Some heart));
                              (at_ 6 501, DeleteRequest alice 7%N)]
                           (run both_joined (boot archive)).1).1) !! 7%N = Some m'
        ∧ same_content (hello 100) m'
        ∧ (deleted (hello 100) = true → deleted m' = true).
Proof.
  apply (stored_message_is_permanent (run both_joined (boot archive)).1 _ 7%N (hello 100)).
  vm_compute. reflexivity.
Defined.

Lemma stored_bodies_stay_valid_witness :
  bodies_ok (messages empty_db)
  ∧ bodies_ok (messages (store (run (both_joined
                                       ++ [(at_ 5 500, SendMessage sA say_hello)])
                                  (boot empty_db)).1)).
Proof.
  assert (H0 : bodies_ok (messages empty_db)).
  { intros id m H. simpl in H. by rewrite lookup_empty in H. }
  split; [exact H0|]. by apply stored_bodies_stay_valid.
Defined.

Lemma page_holds_the_newest_witness :
  healthy crowded
  ∧ length (reverse (find_sorted topic 10 None (messages crowded)))
    = (Z.to_nat 10 `min` count_of topic (messages crowded))%nat.
Proof.
  assert (Hh : healthy crowded) by (vm_compute; constructor).
  split; [exact Hh|].
  refine (proj1 (proj2 (page_holds_the_newest topic (Some 10) None crowded Hh _))
            eq_refl).
  simpl. lia.
Defined.

Lemma paging_back_never_repeats_witness :
  let l1 := reverse (find_sorted topic 10 None (messages crowded)) in
  let l2 := reverse (find_sorted topic 10 (Some 42) (messages crowded)) in
  length l2 = 10%nat
  ∧ ∀ x, x ∈ l2 → (x ∉ l1) ∧ ∀ y, y ∈ l1 → createdAt x.2 < createdAt y.2.
Proof.
  intros l1 l2. split; [by vm_compute|].
  apply (paging_back_never_repeats topic (Some 10) None (Some 10)
           crowded crowded crowded 200 10 200 10 l1 l2 (42%N, hello 42)).
  - vm_compute. reflexivity.
  - vm_compute. reflexivity.
  - vm_compute. reflexivity.
Defined.

Lemma sent_message_ends_next_history_witness :
  let st := (run both_joined (boot one_message)).1 in
  let db1 := (sendMessage (at_ 500 600) sA say_hello (socks st) (store st)).1 in
  ∃ m l, messages db1 !! 600%N = Some m
         ∧ message m = trim (js "hello")
         ∧ (sB, chatHistory l) ∈ (joinAsteroid sB topic (socks st) db1).2
         ∧ last l = Some (600%N, m).
Proof.
  intros st db1.
  assert (Hs : socks st !! sA = Some alice_in_topic) by (vm_compute; reflexivity).
  assert (Hs' : socks st !! sB = Some bob_in_topic) by (vm_compute; reflexivity).
  assert (Hm : messages (store st) = {[ 7%N := hello 100 ]}) by (vm_compute; reflexivity).
  refine (sent_message_ends_next_history (at_ 500 600) sA say_hello (socks st) (store st)
            alice_in_topic 1%N (js "hello") topic (js "3542519") sB bob_in_topic
            Hs eq_refl _ eq_refl eq_refl _ _ _ Hs').
  - split; [reflexivity|]. split; [by vm_compute|vm_compute; lia].
  - vm_compute. constructor.
  - rewrite Hm. reflexivity.
  - intros id m. rewrite Hm. intros [_ <-]%lookup_singleton_Some _. simpl. lia.
Defined.

Lemma error_is_scoped_and_harmless_witness :
  let st := (run guest_and_bob (boot one_message)).1 in
  let o := step (at_ 5 500) (SendMessage sG say_hello) st in
  emitted o.2 = [(sG, chatError (js "Please login to send messages"))]
  ∧ messages (store o.1) = messages (store st)
  ∧ socks o.1 = socks st.
Proof.
  intros st o.
  refine (proj2 (error_is_scoped_and_harmless (at_ 5 500) (SendMessage sG say_hello) st
                   sG (js "Please login to send messages") _)).
  vm_compute. left.
Defined.

Lemma identity_is_fixed_witness :
  let st := (run both_joined (boot empty_db)).1 in
  let so' := mkSocket (Some 1%N) (js "alice") None {[ sA ]} None None in
  socks (step (at_ 5 500) (LeaveAsteroid sA) st).1 !! sA = Some so'
  ∧ s_userId so' = s_userId alice_in_topic
  ∧ s_username so' = s_username alice_in_topic
  ∧ s_userAvatar so' = s_userAvatar alice_in_topic.
Proof.
  intros st so'.
  assert (H : socks st !! sA = Some alice_in_topic) by (vm_compute; reflexivity).
  assert (H' : socks (step (at_ 5 500) (LeaveAsteroid sA) st).1 !! sA = Some so')
    by (vm_compute; reflexivity).
  split; [exact H'|].
  exact (identity_is_fixed (at_ 5 500) (LeaveAsteroid sA) st sA alice_in_topic so' H H').
Defined.

Lemma guest_only_watches_witness :
  let st := (run guest_and_bob (boot one_message)).1 in
  let o := step (at_ 5 500) (AddReaction sG 7%N (Some heart)) st in
  socks st !! sG = Some guest_in_topic
  ∧ messages (store o.1) = messages (store st)
  ∧ ∀ t ev, (t, ev) ∈ emitted o.2 → guest_event ev.
Proof.
  intros st o.
  assert (Hs : socks st !! sG = Some guest_in_topic) by (vm_compute; reflexivity).
  split; [exact Hs|].
  exact (guest_only_watches (at_ 5 500) (AddReaction sG 7%N (Some heart)) st sG
           guest_in_topic eq_refl Hs eq_refl).
Defined.


Lemma one_room_per_connection_witness :
  let ss := socks (run both_joined (boot empty_db)).1 in
  ss !! sA = Some alice_in_topic
  ∧ (∀ r1 r2, sA ∈ members ss r1 → sA ∈ members ss r2 →
       startsWith (js "asteroid:") r1 → startsWith (js "asteroid:") r2 → r1 = r2)
  ∧ sA ∈ members ss (room_of topic).
Proof.
  intros ss.
  assert (Hs : ss !! sA = Some alice_in_topic) by (vm_compute; reflexivity).
  destruct (one_room_per_connection empty_db both_joined sA alice_in_topic Hs)
    as (H1 & H2 & _).
  split; [exact Hs|]. split; [exact H1|]. by destruct (H2 (room_of topic) eq_refl).
Defined.

Lemma departure_is_announced_to_the_others_witness :
  let ss := socks (run both_joined (boot empty_db)).1 in
  (sB, userLeft (js "alice") (js "alice" ++ js " left the discussion"))
    ∈ (leaveAsteroid sA ss).2
  ∧ (sA ∉ members (leaveAsteroid sA ss).1 (room_of topic)).
Proof.
  intros ss.
  assert (Hs : ss !! sA = Some alice_in_topic) by (vm_compute; reflexivity).
  destruct (departure_is_announced_to_the_others sA ss alice_in_topic (room_of topic)
              Hs eq_refl) as (H1 & _ & H3 & _).
  split; [|exact H3]. apply H1. split_and!; [|by vm_compute|done|done].
  apply elem_of_members. exists bob_in_topic. split; [vm_compute; reflexivity|].
  by vm_compute.
Defined.

Lemma rest_writes_what_the_socket_writes_witness :
  let st := (run both_joined (boot one_message)).1 in
  (post_reaction (at_ 5 500) alice 7%N (Some heart) (store st)).1
  = (addReaction (at_ 5 500) sA 7%N (Some heart) (socks st) (store st)).1
  ∧ (delete_message (at_ 5 500) alice 7%N (store st)).1
    = (deleteMessage (at_ 5 500) sA 7%N (socks st) (store st)).1.
Proof.
  intros st.
  assert (Hs : socks st !! sA = Some alice_in_topic) by (vm_compute; reflexivity).
  destruct (rest_writes_what_the_socket_writes (at_ 5 500) sA (socks st) (store st)
              alice_in_topic alice Hs eq_refl) as (H1 & H2 & _).
  split; [by apply H1|apply H2].
Defined.

Lemma post_fails_after_storing_witness :
  (post_message (at_ 5 500) alice saved_asteroid (Some (js "hello")) None
     flaky_populate).2
  = mkResponse 500 (failure (js "Failed to send message"))
  ∧ ∃ m, messages (post_message (at_ 5 500) alice saved_asteroid (Some (js "hello")) None
                     flaky_populate).1 !! 500%N = Some m
         ∧ message m = trim (js "hello") ∧ userId m = 1%N
         ∧ asteroidId m = saved_asteroid.
Proof.
  refine (post_fails_after_storing (at_ 5 500) alice saved_asteroid (Some (js "hello"))
            None flaky_populate (js "hello")
            (mkAsteroid (js "3542519") (js "(2025 AB)")) [] _ _ _ _ eq_refl).
  - by vm_compute.
  - split; [reflexivity|]. split; [by vm_compute|vm_compute; lia].
  - vm_compute. reflexivity.
  - reflexivity.
Defined.

Lemma reaction_touches_one_entry_witness :
  let st := (run both_joined (boot archive)).1 in
  ∃ m', messages (addReaction (at_ 5 500) sB 8%N (Some heart) (socks st) (store st)).1
        = <[8%N := m']> (messages (store st))
        ∧ same_content (set_deleted 150 (hello 120)) m'
        ∧ deleted m' = true ∧ deletedAt m' = Some 150
        ∧ last (reactions m') = Some (mkReaction (Some heart) 2%N 5)
        ∧ (∀ u', u' ≠ 2%N → by_user u' (reactions m') = by_user u' [])
        ∧ (length (reactions m') ≤ 1)%nat.
Proof.
  intros st.
  assert (Hs : socks st !! sB = Some bob_in_topic) by (vm_compute; reflexivity).
  refine (reaction_touches_one_entry (at_ 5 500) sB 8%N (Some heart) (socks st) (store st)
            bob_in_topic 2%N (set_deleted 150 (hello 120)) _ Hs eq_refl _).
  - vm_compute. constructor.
  - vm_compute. reflexivity.
Defined.

Lemma handshake_grants_or_degrades_witness :
  let h := mkHandshake (Some (js "forged")) (Some (js "good")) in
  let st1 := (step (at_ 1 100) (Connect sA (io_use verify_good one_user false h))
                (boot empty_db)).1 in
  ∃ so, socks st1 !! sA = Some so
    ∧ s_rooms so = {[ sA ]} ∧ s_currentRoom so = None
    ∧ (∀ id, s_userId so = Some id ↔
         ∃ token doc, truthy (token_of h) = Some token ∧ verify_good token = Some id
                      ∧ false = false ∧ one_user !! id = Some doc
                      ∧ s_username so = ud_username doc
                      ∧ s_userAvatar so = ud_avatar doc)
    ∧ (s_userId so = None →
         s_username so = js "Guest"
         ∧ (initiator (SendMessage sA say_hello) = Some sA →
            messages (store (step (at_ 5 500) (SendMessage sA say_hello) st1).1)
            = messages (store st1))).
Proof.
  intros h.
  apply (handshake_grants_or_degrades verify_good one_user false h (at_ 1 100) (at_ 5 500)
           sA (boot empty_db) (SendMessage sA say_hello)).
  reflexivity.
Defined.

Lemma unknown_message_is_not_found_witness :
  let st := (run both_joined (boot one_message)).1 in
  (addReaction (at_ 5 500) sA 9%N (Some heart) (socks st) (store st)).2
  = [(sA, chatError (js "Message not found"))]
  ∧ (delete_message (at_ 5 500) alice 9%N (store st)).2
    = mkResponse 404 (failure (js "Message not found")).
Proof.
  intros st.
  assert (Hs : socks st !! sA = Some alice_in_topic) by (vm_compute; reflexivity).
  assert (Hm : messages (store st) !! 9%N = None) by (vm_compute; reflexivity).
  assert (Hh : healthy (store st)) by (vm_compute; constructor).
  destruct (unknown_message_is_not_found (at_ 5 500) sA 9%N (Some heart) (socks st)
              (store st) alice_in_topic 1%N alice Hs eq_refl Hm Hh)
    as (H1 & _ & _ & _ & _ & H2 & _).
  by split.
Defined.

Lemma broadcast_goes_to_the_topic_room_witness :
  let st := (run both_joined (boot one_message)).1 in
  let ss := (leaveAsteroid sA (socks st)).1 in
  (sA ∉ members ss (room_of topic))
  ∧ ∀ t ev, (t, ev) ∈ (deleteMessage (at_ 5 500) sA 7%N ss (store st)).2 ↔
      t ∈ members ss (room_of topic) ∧ ev = messageDeleted 7%N (js "alice").
Proof.
  intros st ss.
  assert (Hs : ss !! sA = Some (mkSocket (Some 1%N) (js "alice") None {[ sA ]} None None))
    by (vm_compute; reflexivity).
  assert (Hm : messages (store st) !! 7%N = Some (hello 100)) by (vm_compute; reflexivity).
  assert (Hh : healthy (store st)) by (vm_compute; constructor).
  destruct (broadcast_goes_to_the_topic_room (at_ 5 500) sA ss (store st) _ 1%N Hs eq_refl Hh)
    as (_ & _ & H).
  split; [by vm_compute|]. exact (H 7%N (hello 100) Hm eq_refl).
Defined.

Lemma count_follows_writes_witness :
  let st := (run both_joined (boot one_message)).1 in
  let st' := (step (at_ 5 500) (DeleteMessage sA 7%N) st).1 in
  count_of topic (messages (store st)) = 1%nat
  ∧ (count_of topic (messages (store st')) + counts_for topic (hello 100)
     = count_of topic (messages (store st)))%nat
  ∧ count_of other_topic (messages (store st')) = count_of other_topic (messages (store st)).
Proof.
  intros st st'.
  destruct (count_follows_writes (at_ 5 500) (DeleteMessage sA 7%N) st topic)
    as (_ & _ & H & _).
  split; [by vm_compute|]. split; [|by vm_compute].
  apply (H 7%N (hello 100) (set_updatedAt 5 (set_deleted 5 (hello 100))));
    vm_compute; reflexivity.
Defined.

Lemma watchlist_is_a_set_witness :
  let a := addToWatchlist 5 1%N topic None [] (mkUserDb ∅ []) in
  isAsteroidWatched topic a.1.1 = true
  ∧ a.2 = true
  ∧ watchlists a.1.2 !! 1%N = Some a.1.1.
Proof.
  intros a.
  destruct (watchlist_is_a_set 5 1%N topic None [] (mkUserDb ∅ []))
    as (H1 & _ & _ & _ & _ & _ & H7 & _).
  split; [exact H1|]. split; [reflexivity|]. apply H7; reflexivity.
Defined.

End more_examples.
